(** * RyderSerial: the host-side protocol engine of [src/ryder-serial.ts]

    A shallow embedding of the [RyderSerial] class: the response decoder
    ([serial_data]), the command queue ([send], [next], [clear]), the
    watchdog timer, the advisory lock queue ([lock], [unlock], [locked])
    and the part of the connection life cycle that touches them ([open],
    [close] and the port's own events).

    The instance fields and the part of the JavaScript environment the class
    acts on (pending timeouts, promise handles, emitted events, bytes written
    to the port) are threaded explicitly through every method.

    Left out: logging, the reconnect interval and [sequence].
    [serial_error] is never run: the port's [error]
    handler only binds it, and the [catch] in [next] is not entered. Time is
    not measured: an armed timeout may fire at any moment. *)

From Stdlib Require Import ZArith List String Bool Lia Permutation.
Import ListNotations.

Local Open Scope Z_scope.

(** ** Constants *)

Definition RESPONSE_OK : Z := 1.
Definition RESPONSE_SEND_INPUT : Z := 2.
Definition RESPONSE_REJECTED : Z := 3.
Definition RESPONSE_OUTPUT : Z := 4.
Definition RESPONSE_OUTPUT_END : Z := 5.
Definition RESPONSE_ESC_SEQUENCE : Z := 6.
Definition RESPONSE_WAIT_USER_CONFIRM : Z := 10.
Definition RESPONSE_LOCKED : Z := 11.

(** The table [response_errors]; [None] is a key the object does not have. *)
Definition response_errors (b : Z) : option string :=
  if b =? 255 then Some "RESPONSE_ERROR_UNKNOWN_COMMAND"%string
  else if b =? 254 then Some "RESPONSE_ERROR_NOT_INITIALIZED"%string
  else if b =? 253 then Some "RESPONSE_ERROR_MEMORY_ERROR"%string
  else if b =? 252 then Some "RESPONSE_ERROR_APP_DOMAIN_TOO_LONG"%string
  else if b =? 251 then Some "RESPONSE_ERROR_APP_DOMAIN_INVALID"%string
  else if b =? 250 then Some "RESPONSE_ERROR_MNEMONIC_TOO_LONG"%string
  else if b =? 249 then Some "RESPONSE_ERROR_MNEMONIC_INVALID"%string
  else if b =? 248 then Some "RESPONSE_ERROR_GENERATE_MNEMONIC"%string
  else if b =? 247 then Some "RESPONSE_ERROR_INPUT_TIMEOUT"%string
  else if b =? 246 then Some "RESPONSE_ERROR_NOT_IMPLEMENTED"%string
  else None.

Inductive State : Set := IDLE | SENDING | READING.

(** ** JavaScript values the class handles *)

(** A JavaScript string is a sequence of 16-bit code units. *)
Definition JsString : Set := list Z.

(** [String.fromCharCode(n)] for an integer [n]: one code unit, [n] taken
    modulo 2^16. *)
Definition fromCharCode (n : Z) : JsString := [n mod 65536].

(** A [Uint8Array]: every element is in 0..255. *)
Definition is_byte (b : Z) : Prop := 0 <= b < 256.

(** A thrown or rejected value: [new Error(message)], or the [TypeError] the
    runtime raises. *)
Inductive JsError : Set :=
| Error (message : string)
| TypeError.

(** What a command's promise is resolved with: the response byte
    ([resolve(data[0])]) or the output buffer ([resolve(entry[4])]). *)
Inductive Value : Set :=
| VNumber (n : Z)
| VString (s : JsString).

(** One invocation of a completion handle of promise [p]: entry [1] of a
    [TrainEntry] is the [resolve] function of its promise, entry [2] the
    [reject] function. *)
Inductive HandleCall : Set :=
| Resolve (p : nat) (v : Value)
| Reject (p : nat) (e : JsError).

(** How a method call ends. *)
Inductive Completion : Set :=
| Normal
| Throw (e : JsError).

(** The promises the public methods return. *)
Inductive Promise : Set :=
| Promise_resolve                 (* [Promise.resolve()]: already resolved *)
| Promise_reject (e : JsError)    (* [Promise.reject(e)]: already rejected *)
| Promise_new (p : nat).          (* [new Promise(...)]: settled through handle [p] *)

(** [TrainEntry]: data, the promise whose [resolve]/[reject] functions the
    entry carries, [isEscapedByte], and the output buffer. *)
Record TrainEntry : Set := mkTrainEntry {
  entry_data : JsString;
  entry_promise : nat;
  isEscapedByte : bool;
  output_buffer : JsString
}.

(** The only function ever pushed on the lock queue is the static method
    [Promise.resolve] itself, detached from [Promise]. *)
Inductive LockHandle : Set := Promise_resolve_function.

(** Calling the detached [Promise.resolve]: its receiver is [undefined]
    (in [unlock]) or the lock array (in [clear]); neither is a constructor,
    so the call raises a [TypeError] (ECMAScript, Promise.resolve steps 1-2
    and NewPromiseCapability). *)
Definition call_lock_handle (h : LockHandle) : Completion :=
  match h with Promise_resolve_function => Throw TypeError end.

Record SerialPort : Set := mkSerialPort { isOpen : bool }.

(** ** The instance and its environment *)

Record RyderSerial : Set := mkRyderSerial {
  (* fields of the instance *)
  reject_on_locked : bool;          (* [this.options.reject_on_locked] *)
  closing : bool;
  serial : option SerialPort;       (* [None] is [undefined] *)
  train_symbol : list TrainEntry;
  state_symbol : State;
  lock_symbol : list LockHandle;
  watchdog_symbol : option nat;     (* the timeout handle last stored *)
  (* the environment *)
  timeouts : list nat;              (* timeouts that are armed *)
  timeout_seq : nat;                (* next timeout handle *)
  promise_seq : nat;                (* next promise *)
  handle_calls : list HandleCall;   (* completion handles invoked, in order *)
  emitted : list string;            (* [this.emit(name)], in order *)
  written : list JsString           (* [this.serial.write(data)], in order *)
}.

Definition set_closing (c : bool) (st : RyderSerial) : RyderSerial :=
  mkRyderSerial (reject_on_locked st) c (serial st) (train_symbol st)
    (state_symbol st) (lock_symbol st) (watchdog_symbol st) (timeouts st)
    (timeout_seq st) (promise_seq st) (handle_calls st) (emitted st) (written st).

Definition set_serial (s : option SerialPort) (st : RyderSerial) : RyderSerial :=
  mkRyderSerial (reject_on_locked st) (closing st) s (train_symbol st)
    (state_symbol st) (lock_symbol st) (watchdog_symbol st) (timeouts st)
    (timeout_seq st) (promise_seq st) (handle_calls st) (emitted st) (written st).

Definition set_train (t : list TrainEntry) (st : RyderSerial) : RyderSerial :=
  mkRyderSerial (reject_on_locked st) (closing st) (serial st) t
    (state_symbol st) (lock_symbol st) (watchdog_symbol st) (timeouts st)
    (timeout_seq st) (promise_seq st) (handle_calls st) (emitted st) (written st).

Definition set_state (s : State) (st : RyderSerial) : RyderSerial :=
  mkRyderSerial (reject_on_locked st) (closing st) (serial st) (train_symbol st)
    s (lock_symbol st) (watchdog_symbol st) (timeouts st)
    (timeout_seq st) (promise_seq st) (handle_calls st) (emitted st) (written st).

Definition set_lock (l : list LockHandle) (st : RyderSerial) : RyderSerial :=
  mkRyderSerial (reject_on_locked st) (closing st) (serial st) (train_symbol st)
    (state_symbol st) l (watchdog_symbol st) (timeouts st)
    (timeout_seq st) (promise_seq st) (handle_calls st) (emitted st) (written st).

(** [clearTimeout(this[watchdog_symbol])]: the timeout the handle names is
    disarmed; an [undefined] or stale handle disarms nothing. *)
Definition clearTimeout (st : RyderSerial) : RyderSerial :=
  match watchdog_symbol st with
  | None => st
  | Some h =>
    mkRyderSerial (reject_on_locked st) (closing st) (serial st) (train_symbol st)
      (state_symbol st) (lock_symbol st) (watchdog_symbol st)
      (filter (fun t => negb (Nat.eqb t h)) (timeouts st))
      (timeout_seq st) (promise_seq st) (handle_calls st) (emitted st) (written st)
  end.

(** [this[watchdog_symbol] = setTimeout(this.serial_watchdog.bind(this),
    WATCHDOG_TIMEOUT)]: a fresh timeout is armed and its handle stored. *)
Definition setTimeout (st : RyderSerial) : RyderSerial :=
  mkRyderSerial (reject_on_locked st) (closing st) (serial st) (train_symbol st)
    (state_symbol st) (lock_symbol st) (Some (timeout_seq st))
    (timeout_seq st :: timeouts st)
    (S (timeout_seq st)) (promise_seq st) (handle_calls st) (emitted st) (written st).

(** The timeout [h] fires: it is no longer armed. *)
Definition expire (h : nat) (st : RyderSerial) : RyderSerial :=
  mkRyderSerial (reject_on_locked st) (closing st) (serial st) (train_symbol st)
    (state_symbol st) (lock_symbol st) (watchdog_symbol st)
    (filter (fun t => negb (Nat.eqb t h)) (timeouts st))
    (timeout_seq st) (promise_seq st) (handle_calls st) (emitted st) (written st).

Definition new_promise (st : RyderSerial) : RyderSerial :=
  mkRyderSerial (reject_on_locked st) (closing st) (serial st) (train_symbol st)
    (state_symbol st) (lock_symbol st) (watchdog_symbol st) (timeouts st)
    (timeout_seq st) (S (promise_seq st)) (handle_calls st) (emitted st) (written st).

Definition set_handle_calls (l : list HandleCall) (st : RyderSerial) : RyderSerial :=
  mkRyderSerial (reject_on_locked st) (closing st) (serial st) (train_symbol st)
    (state_symbol st) (lock_symbol st) (watchdog_symbol st) (timeouts st)
    (timeout_seq st) (promise_seq st) l (emitted st) (written st).

(** A completion handle is invoked. *)
Definition invoke (c : HandleCall) (st : RyderSerial) : RyderSerial :=
  set_handle_calls (handle_calls st ++ [c]) st.

Definition emit (name : string) (st : RyderSerial) : RyderSerial :=
  mkRyderSerial (reject_on_locked st) (closing st) (serial st) (train_symbol st)
    (state_symbol st) (lock_symbol st) (watchdog_symbol st) (timeouts st)
    (timeout_seq st) (promise_seq st) (handle_calls st) (emitted st ++ [name]) (written st).

(** [this.serial.write(data)] on an open port queues the data and does not
    throw, so the [catch] of [next] is not entered. *)
Definition write (data : JsString) (st : RyderSerial) : RyderSerial :=
  mkRyderSerial (reject_on_locked st) (closing st) (serial st) (train_symbol st)
    (state_symbol st) (lock_symbol st) (watchdog_symbol st) (timeouts st)
    (timeout_seq st) (promise_seq st) (handle_calls st) (emitted st) (written st ++ [data]).

(** [this.serial?.isOpen], as a condition. *)
Definition serial_isOpen (st : RyderSerial) : bool :=
  match serial st with
  | Some p => isOpen p
  | None => false
  end.

(** [this[train_symbol].shift()] *)
Definition shift (st : RyderSerial) : RyderSerial :=
  set_train (tl (train_symbol st)) st.

(** ** Methods *)

(** The loop of [clear] that rejects every entry, and the one of
    [serial_data] under [reject_on_locked]: [reject(error)] for each entry of
    the train, in order. The train itself is not touched. *)
Definition reject_each (e : JsError) (st : RyderSerial) : RyderSerial :=
  fold_left (fun s c => invoke (Reject (entry_promise c) e) s) (train_symbol st) st.

(** The loop of [clear] that calls every lock handle. *)
Fixpoint release_each (l : list LockHandle) : Completion :=
  match l with
  | [] => Normal
  | h :: l' =>
    match call_lock_handle h with
    | Normal => release_each l'
    | Throw e => Throw e
    end
  end.

(** [clear()]. When a lock handle throws, the last assignment
    ([this[lock_symbol] = []]) is not reached. *)
Definition clear (st : RyderSerial) : RyderSerial * Completion :=
  let st := clearTimeout st in
  let st := reject_each (Error "ERROR_CLEARED") st in
  let st := set_train [] st in
  let st := set_state IDLE st in
  match release_each (lock_symbol st) with
  | Throw e => (st, Throw e)
  | Normal => (set_lock [] st, Normal)
  end.

(** [next()] *)
Definition next (st : RyderSerial) : RyderSerial * Completion :=
  match state_symbol st, train_symbol st with
  | IDLE, head :: _ =>
    if negb (serial_isOpen st) then
      match clear st with
      | (st, Throw e) => (st, Throw e)
      | (st, Normal) =>
        (invoke (Reject (entry_promise head) (Error "ERROR_DISCONNECTED")) st, Normal)
      end
    else
      let st := set_state SENDING st in
      let st := write (entry_data head) st in
      let st := clearTimeout st in
      let st := setTimeout st in
      (st, Normal)
  | _, _ => (st, Normal)
  end.

(** [serial_watchdog()] *)
Definition serial_watchdog (st : RyderSerial) : RyderSerial * Completion :=
  match train_symbol st with
  | [] => (st, Normal)
  | head :: _ =>
    let st := shift st in
    let st := invoke (Reject (entry_promise head) (Error "ERROR_WATCHDOG")) st in
    let st := set_state IDLE st in
    next st
  end.

(** [data[0] === c]; [data[0]] is [undefined] on an empty buffer. *)
Definition first_is (data : list Z) (c : Z) : bool :=
  match data with
  | b :: _ => b =? c
  | [] => false
  end.

(** [data.length > 1] *)
Definition more_in_buffer (data : list Z) : bool :=
  match data with
  | _ :: _ :: _ => true
  | _ => false
  end.

(** The message of the error built in the last branch of the SENDING block:
    [data[0] in response_errors ? response_errors[data[0]] :
    "ERROR_UNKNOWN_RESPONSE"]. *)
Definition error_message (data : list Z) : string :=
  match data with
  | b :: _ =>
    match response_errors b with
    | Some m => m
    | None => "ERROR_UNKNOWN_RESPONSE"%string
    end
  | [] => "ERROR_UNKNOWN_RESPONSE"%string
  end.

(** Writes to [this[train_symbol][0][3]] and [this[train_symbol][0][4]]:
    the head entry is updated in place. *)
Definition set_head (c : TrainEntry) (st : RyderSerial) : RyderSerial :=
  set_train (c :: tl (train_symbol st)) st.

(** The [for] loop of the READING block over the bytes not yet consumed.
    [resolve] is the handle taken from the head before the loop. Reading
    [this[train_symbol][0][3]] on an empty train is a [TypeError]. *)
Fixpoint reading_loop (resolve : nat) (st : RyderSerial) (bytes : list Z)
  : RyderSerial * Completion :=
  match bytes with
  | [] => (st, Normal)
  | b :: bytes' =>
    match train_symbol st with
    | [] => (st, Throw TypeError)
    | head :: _ =>
      let append st :=
        set_head (mkTrainEntry (entry_data head) (entry_promise head)
                    false (output_buffer head ++ fromCharCode b)) st in
      if negb (isEscapedByte head) then
        if b =? RESPONSE_ESC_SEQUENCE then
          reading_loop resolve
            (set_head (mkTrainEntry (entry_data head) (entry_promise head)
                         true (output_buffer head)) st) bytes'
        else if b =? RESPONSE_OUTPUT_END then
          let st := invoke (Resolve resolve (VString (output_buffer head))) st in
          let st := shift st in
          let st := set_state IDLE st in
          next st
        else reading_loop resolve (append st) bytes'
      else reading_loop resolve (append st) bytes'
    end
  end.

(** The READING block of [serial_data]: re-arm the watchdog, then scan from
    [offset]. *)
Definition reading (resolve : nat) (st : RyderSerial) (offset : nat) (data : list Z)
  : RyderSerial * Completion :=
  match state_symbol st with
  | READING => reading_loop resolve (setTimeout st) (skipn offset data)
  | _ => (st, Normal)
  end.

(** The body of [serial_data(data)]; [self] stands for the recursive call
    [this.serial_data.bind(this)(data.slice(1))]. *)
Definition serial_data_body (self : RyderSerial -> RyderSerial * Completion)
  (st : RyderSerial) (data : list Z) : RyderSerial * Completion :=
  match state_symbol st with
  | IDLE => (st, Normal)
  | _ =>
    let st := clearTimeout st in
    match train_symbol st with
    | [] => (st, Normal)
    | head :: _ =>
      let resolve := entry_promise head in
      let reject := entry_promise head in
      match state_symbol st with
      | SENDING =>
        if first_is data RESPONSE_LOCKED && reject_on_locked st then
          let st := reject_each (Error "ERROR_LOCKED") st in
          let st := set_state IDLE st in
          let st := emit "locked" st in
          (st, Normal)
        else
          let st := if first_is data RESPONSE_LOCKED then emit "locked" st else st in
          if first_is data RESPONSE_OK || first_is data RESPONSE_SEND_INPUT
             || first_is data RESPONSE_REJECTED then
            let st := shift st in
            let st := invoke (Resolve resolve (VNumber (hd 0 data))) st in
            if more_in_buffer data then self st
            else next (set_state IDLE st)
          else if first_is data RESPONSE_OUTPUT then
            let st := set_state READING st in
            reading resolve st 1 data
          else if first_is data RESPONSE_WAIT_USER_CONFIRM then
            let st := emit "wait_user_confirm" st in
            if more_in_buffer data then self st
            else (st, Normal)
          else
            let st := invoke (Reject reject (Error (error_message data))) st in
            let st := shift st in
            let st := set_state IDLE st in
            if more_in_buffer data then self st
            else next st
      | _ => reading resolve st 0 data
      end
    end
  end.

(** [serial_data(data)]: the recursive call is on [data.slice(1)] and is
    made only when [data.length > 1]. *)
Fixpoint serial_data (st : RyderSerial) (data : list Z) {struct data}
  : RyderSerial * Completion :=
  match data with
  | [] => serial_data_body (fun st' => (st', Normal)) st []
  | b :: rest => serial_data_body (fun st' => serial_data st' rest) st (b :: rest)
  end.

(** The argument of [send]: [string | number]. *)
Inductive SendData : Set :=
| DString (s : JsString)
| DNumber (n : Z).

(** [send(data, prepend)]. The executor of [new Promise] runs at once; were
    it to throw, the promise machinery would call [reject] with the error. *)
Definition send (st : RyderSerial) (data : SendData) (prepend : bool)
  : RyderSerial * Promise :=
  if negb (serial_isOpen st) then
    (st, Promise_reject (Error "ERROR_DISCONNECTED"))
  else
    let data := match data with
                | DNumber n => fromCharCode n
                | DString s => s
                end in
    let p := promise_seq st in
    let st := new_promise st in
    let c := mkTrainEntry data p false [] in
    let st := if prepend then set_train (c :: train_symbol st) st
              else set_train (train_symbol st ++ [c]) st in
    match next st with
    | (st, Normal) => (st, Promise_new p)
    | (st, Throw e) => (invoke (Reject p e) st, Promise_new p)
    end.

(** [locked()] *)
Definition locked (st : RyderSerial) : bool :=
  negb (Nat.eqb (List.length (lock_symbol st)) 0).

(** [lock()]: pushes [Promise.resolve] and returns [Promise.resolve()]. *)
Definition lock (st : RyderSerial) : RyderSerial * Promise :=
  (set_lock (lock_symbol st ++ [Promise_resolve_function]) st, Promise_resolve).

(** [unlock()]: [resolve && resolve()] calls the handle just shifted off. *)
Definition unlock (st : RyderSerial) : RyderSerial * Completion :=
  match lock_symbol st with
  | [] => (st, Normal)
  | resolve :: rest => (set_lock rest st, call_lock_handle resolve)
  end.

(** [close()] *)
Definition close (st : RyderSerial) : RyderSerial * Completion :=
  if closing st then (st, Normal)
  else
    let st := set_closing true st in
    match clear st with
    | (st, Throw e) => (st, Throw e)
    | (st, Normal) => (set_serial None st, Normal)
    end.

(** [open()]: the reconnect interval and the defaults written into
    [this.options] touch nothing modelled here; the new port is not open
    until its [open] event. *)
Definition open (st : RyderSerial) : RyderSerial * Completion :=
  let st := set_closing false st in
  if serial_isOpen st then (st, Normal)
  else
    let r := match serial st with
             | Some _ => close st
             | None => (st, Normal)
             end in
    match r with
    | (st, Throw e) => (st, Throw e)
    | (st, Normal) => (set_serial (Some (mkSerialPort false)) st, Normal)
    end.

(** The port's [open] event: the port is open; the handler emits [open] and
    calls [next()]. *)
Definition on_open (st : RyderSerial) : RyderSerial * Completion :=
  let st := set_serial (Some (mkSerialPort true)) st in
  let st := emit "open" st in
  next st.

(** The port's [close] event: the port is no longer open; the handler emits
    [close]. *)
Definition on_close (st : RyderSerial) : RyderSerial * Completion :=
  let st := set_serial (Some (mkSerialPort false)) st in
  (emit "close" st, Normal).

(** The constructor: empty train and lock queue, IDLE, and [open()]. *)
Definition constructor (rol : bool) : RyderSerial :=
  fst (open (mkRyderSerial rol false None [] IDLE [] None [] 0 0 [] [] [])).

(** ** The instance in its event loop *)

(** What can happen to an instance between two observable moments: a call of
    a public method, or a callback run by the event loop (the port's [data],
    [open] and [close] events, an armed timeout firing). *)
Inductive Event : Set :=
| Send (data : SendData) (prepend : bool)
| Data (data : list Z)
| Timeout (h : nat)
| Clear
| Close
| Open
| Lock
| Unlock
| PortOpen
| PortClose.

(** One event; [None] when the event cannot happen in this state: only an
    armed timeout fires, only a port that is not open opens, only an open
    port closes. A thrown exception leaves the instance as the throwing
    method left it. *)
Definition step (st : RyderSerial) (ev : Event) : option RyderSerial :=
  match ev with
  | Send d p => Some (fst (send st d p))
  | Data d => Some (fst (serial_data st d))
  | Timeout h =>
    if existsb (Nat.eqb h) (timeouts st)
    then Some (fst (serial_watchdog (expire h st)))
    else None
  | Clear => Some (fst (clear st))
  | Close => Some (fst (close st))
  | Open => Some (fst (open st))
  | Lock => Some (fst (lock st))
  | Unlock => Some (fst (unlock st))
  | PortOpen =>
    match serial st with
    | Some (mkSerialPort false) => Some (fst (on_open st))
    | _ => None
    end
  | PortClose =>
    match serial st with
    | Some (mkSerialPort true) => Some (fst (on_close st))
    | _ => None
    end
  end.

Fixpoint run (st : RyderSerial) (evs : list Event) : option RyderSerial :=
  match evs with
  | [] => Some st
  | ev :: evs' =>
    match step st ev with
    | Some st' => run st' evs'
    | None => None
    end
  end.

(** The number of armed watchdog timers. *)
Definition armed (st : RyderSerial) : nat := List.length (timeouts st).

(** Every armed timeout is the one [this[watchdog_symbol]] names. *)
Definition watchdog_ok (st : RyderSerial) : Prop :=
  timeouts st = [] \/ exists h, watchdog_symbol st = Some h /\ timeouts st = [h].




(** How often the [resolve] and the [reject] function of promise [p] were
    invoked. *)
Definition resolver_calls (p : nat) (st : RyderSerial) : nat :=
  List.length (filter (fun c => match c with
                                | Resolve q _ => Nat.eqb q p
                                | Reject _ _ => false
                                end) (handle_calls st)).

Definition rejecter_calls (p : nat) (st : RyderSerial) : nat :=
  List.length (filter (fun c => match c with
                                | Reject q _ => Nat.eqb q p
                                | Resolve _ _ => false
                                end) (handle_calls st)).

(** Calls of the lock layer only. *)
Inductive LockCall : Set := CallLock | CallUnlock | CallLocked.

Definition lock_call (st : RyderSerial) (c : LockCall) : RyderSerial :=
  match c with
  | CallLock => fst (lock st)
  | CallUnlock => fst (unlock st)
  | CallLocked => st                (* [locked()] only reads *)
  end.

Definition lock_calls (st : RyderSerial) (cs : list LockCall) : RyderSerial :=
  fold_left lock_call cs st.

(** The number of [lock()] calls in [cs]. *)
Definition count_lock (cs : list LockCall) : nat :=
  List.length (filter (fun c => match c with CallLock => true | _ => false end) cs).

(** The number of [unlock()] calls in [cs] made while a lock was
    outstanding, when [cs] is run from [st]. *)
Fixpoint count_effective_unlock (st : RyderSerial) (cs : list LockCall) : nat :=
  match cs with
  | [] => 0%nat
  | c :: cs' =>
    ((match c with
      | CallUnlock => if locked st then 1 else 0
      | _ => 0
      end) + count_effective_unlock (lock_call st c) cs')%nat
  end.

(** ** Scenarios used as concrete inputs *)

(** An instance whose port has opened and that has not been used yet. *)
Definition connected (rol : bool) : RyderSerial :=
  fst (on_open (constructor rol)).

(** One command submitted on a fresh connection: it is in flight. *)
Definition one_in_flight (rol : bool) : RyderSerial :=
  fst (send (connected rol) (DNumber 30) false).

(** A second command submitted behind it. *)
Definition two_queued (rol : bool) : RyderSerial :=
  fst (send (one_in_flight rol) (DNumber 2) false).

(** A command is sent and starts its output with 0x41; a second command is
    prepended and takes the rest of the output; the first is then sent
    again, with 0x41 still in its output buffer. *)
Definition displaced_head_run : list Event :=
  [PortOpen; Send (DNumber 30) false; Data [4; 65];
   Send (DNumber 100) true; Data [66; 5]].

(** The same, the first command being displaced right after an escape
    byte. *)
Definition pending_escape_run : list Event :=
  [PortOpen; Send (DNumber 30) false; Data [4; 6];
   Send (DNumber 100) true; Data [5]].

(** The device's encoder, as the wire protocol describes it (it is not part
    of the driver): the control bytes are 1..6, 10, 11 and the error range
    246..255, and [ESC_SEQUENCE] is inserted before each of them. *)
Definition spec_is_control (b : Z) : bool :=
  ((1 <=? b) && (b <=? 6)) || (b =? 10) || (b =? 11)
  || ((246 <=? b) && (b <=? 255)).

Definition spec_escape (B : list Z) : list Z :=
  flat_map (fun b => if spec_is_control b then [RESPONSE_ESC_SEQUENCE; b] else [b]) B.

Definition spec_frame (B : list Z) : list Z :=
  RESPONSE_OUTPUT :: spec_escape B ++ [RESPONSE_OUTPUT_END].

(** ** Definitions for the further properties *)

(** [data] as [send] queues it. *)
Definition queued_data (d : SendData) : JsString :=
  match d with
  | DNumber n => fromCharCode n
  | DString s => s
  end.

(** [send] only looks at the string its argument stands for. *)
Definition as_string (ev : Event) : Event :=
  match ev with
  | Send d p => Send (DString (queued_data d)) p
  | _ => ev
  end.

(** [SerialPort.PortInfo], with the fields [enumerate_devices] reads; both
    identifiers are optional. *)
Record PortInfo : Set := mkPortInfo {
  path : string;
  vendorId : option string;
  productId : option string
}.

(** [x === s] for an optional string [x] and a string literal [s]. *)
Definition strict_equal (x : option string) (s : string) : bool :=
  match x with
  | Some y => String.eqb y s
  | None => false
  end.

(** [enumerate_devices()], applied to the result of [SerialPort.list()]. *)
Definition enumerate_devices (devices : list PortInfo) : list PortInfo :=
  filter (fun device =>
            strict_equal (vendorId device) "10c4"
            && strict_equal (productId device) "ea60")
         devices.

(** The promise a handle invocation belongs to. *)
Definition call_promise (c : HandleCall) : nat :=
  match c with
  | Resolve p _ => p
  | Reject p _ => p
  end.

(** The promises of the queued entries, then those whose handles were
    invoked. *)
Definition promises (st : RyderSerial) : list nat :=
  map entry_promise (train_symbol st) ++ map call_promise (handle_calls st).

(** Every promise is either queued or completed, never both and never
    twice; the port is open and LOCKED does not reject. *)
Definition once (st : RyderSerial) : Prop :=
  NoDup (promises st)
  /\ (forall p, In p (promises st) -> (p < promise_seq st)%nat)
  /\ serial_isOpen st = true
  /\ reject_on_locked st = false.

(** [st'] holds the same promises as [st], possibly moved from the queue to
    the completed ones. *)
Definition moved (st st' : RyderSerial) : Prop :=
  Permutation (promises st) (promises st')
  /\ promise_seq st' = promise_seq st
  /\ serial_isOpen st' = serial_isOpen st
  /\ reject_on_locked st' = reject_on_locked st.

(** The events of an instance whose port stays open. *)
Definition engine_event (ev : Event) : bool :=
  match ev with
  | Send _ _ | Data _ | Timeout _ | Clear | Lock | Unlock => true
  | Close | Open | PortOpen | PortClose => false
  end.

(** Everything but the watchdog handle and the timeouts. *)
Definition observable (st : RyderSerial) :=
  (reject_on_locked st, closing st, serial st, train_symbol st, state_symbol st,
   lock_symbol st, promise_seq st, handle_calls st, emitted st, written st).


(** ** Basic facts *)

Lemma clearTimeout_calls :
  forall st, handle_calls (clearTimeout st) = handle_calls st.
Proof. intros st. unfold clearTimeout. now destruct (watchdog_symbol st). Qed.

Lemma next_nil :
  forall st, train_symbol st = [] -> next st = (st, Normal).
Proof.
  intros st H. unfold next. rewrite H. destruct (state_symbol st); reflexivity.
Qed.

Lemma fold_invoke_calls :
  forall (e : JsError) (l : list TrainEntry) (st : RyderSerial),
    handle_calls (fold_left (fun s c => invoke (Reject (entry_promise c) e) s) l st)
    = handle_calls st ++ map (fun c => Reject (entry_promise c) e) l.
Proof.
  induction l as [|c l IH]; intros st; simpl.
  - now rewrite app_nil_r.
  - rewrite IH. simpl. now rewrite <- app_assoc.
Qed.

(** [next] only ever adds to the record of handle invocations. *)
Lemma next_calls :
  forall st, exists more, handle_calls (fst (next st)) = handle_calls st ++ more.
Proof.
  intros st. unfold next.
  destruct (state_symbol st) eqn:Hs; try (exists []; now rewrite app_nil_r).
  destruct (train_symbol st) as [|head rest] eqn:Ht;
    try (exists []; now rewrite app_nil_r).
  destruct (negb (serial_isOpen st)).
  - unfold clear.
    destruct (release_each _); eexists; cbn; unfold reject_each;
      rewrite fold_invoke_calls, clearTimeout_calls.
    + rewrite <- app_assoc. reflexivity.
    + reflexivity.
  - exists []. rewrite app_nil_r.
    destruct st as [rol cl ser tr s lk wd ts tq pq hc em wr]; simpl.
    destruct wd; reflexivity.
Qed.

(** ** Submission *)

(** C8: when the serial port is absent or not open, [send] returns a promise
    already rejected with ERROR_DISCONNECTED and leaves the whole instance
    (queue, engine state and everything else) as it was. *)
Theorem send_disconnected :
  forall (st : RyderSerial) (data : SendData) (prepend : bool),
    serial st = None \/ serial st = Some (mkSerialPort false) ->
    send st data prepend = (st, Promise_reject (Error "ERROR_DISCONNECTED")).
Proof.
  intros st data prepend H.
  unfold send, serial_isOpen.
  destruct H as [-> | ->]; reflexivity.
Qed.

Lemma send_disconnected_witness :
  (serial (constructor false) = None
   \/ serial (constructor false) = Some (mkSerialPort false))
  /\ send (constructor false) (DNumber 2) false
     = (constructor false, Promise_reject (Error "ERROR_DISCONNECTED")).
Proof.
  split.
  - right; reflexivity.
  - apply (send_disconnected (constructor false) (DNumber 2) false).
    right; reflexivity.
Defined.

(** C10: for a number [n] that is a char code, [send(n, prepend)] does
    exactly what [send(s, prepend)] does for the one-character string [s]
    with that char code: same resulting instance (queued data included) and
    same promise. *)
Theorem send_number_as_string :
  forall (st : RyderSerial) (n : Z) (prepend : bool),
    0 <= n < 65536 ->
    send st (DNumber n) prepend = send st (DString [n]) prepend.
Proof.
  intros st n prepend Hn.
  unfold send, fromCharCode.
  rewrite Z.mod_small by exact Hn.
  reflexivity.
Qed.

Lemma send_number_as_string_witness :
  0 <= 100 < 65536
  /\ send (connected false) (DNumber 100) true
     = send (connected false) (DString [100]) true.
Proof.
  split.
  - lia.
  - apply (send_number_as_string (connected false) 100 true); lia.
Defined.

(** ** Decoding *)

(** An OUTPUT byte received while SENDING hands the rest of the buffer to
    the READING loop, with the watchdog re-armed. *)
Lemma serial_data_output :
  forall (st : RyderSerial) (head : TrainEntry) (rest : list TrainEntry)
         (bytes : list Z),
    state_symbol st = SENDING ->
    train_symbol st = head :: rest ->
    serial_data st (RESPONSE_OUTPUT :: bytes)
    = reading_loop (entry_promise head)
        (setTimeout (set_state READING (clearTimeout st))) bytes.
Proof.
  intros st head rest bytes Hs Ht.
  destruct st as [rol cl ser tr s lk wd ts tq pq hc em wr].
  simpl in Hs, Ht. subst s tr.
  destruct wd; reflexivity.
Qed.

(** The READING loop on an escaped byte string followed by OUTPUT_END: the
    bytes are appended to the head's buffer, which is then resolved. *)
Lemma reading_loop_escaped :
  forall (p : nat) (B : list Z) (st : RyderSerial) (head : TrainEntry)
         (rest : list TrainEntry),
    Forall is_byte B ->
    train_symbol st = head :: rest ->
    isEscapedByte head = false ->
    reading_loop p st (spec_escape B ++ [RESPONSE_OUTPUT_END])
    = next (set_state IDLE (set_train rest
        (invoke (Resolve p (VString (output_buffer head ++ B))) st))).
Proof.
  intros p B. induction B as [|b B IH]; intros st head rest HB Ht He.
  - simpl. rewrite Ht, He. simpl. rewrite app_nil_r.
    destruct st; simpl in *; subst; reflexivity.
  - inversion HB as [|b' B' Hb HB']; subst.
    assert (Hmod : fromCharCode b = [b]).
    { unfold fromCharCode. rewrite Z.mod_small; [reflexivity|].
      unfold is_byte in Hb. lia. }
    unfold spec_escape. simpl flat_map. fold (spec_escape B).
    destruct (spec_is_control b) eqn:Hc.
    + simpl app. simpl reading_loop. rewrite Ht, He. simpl.
      rewrite Hmod.
      erewrite IH; [|exact HB'|reflexivity|reflexivity].
      simpl. rewrite <- app_assoc. simpl.
      destruct st; simpl in *; subst; reflexivity.
    + simpl app.
      assert ((b =? RESPONSE_ESC_SEQUENCE) = false
              /\ (b =? RESPONSE_OUTPUT_END) = false) as [H6 H5].
      { unfold spec_is_control, RESPONSE_ESC_SEQUENCE, RESPONSE_OUTPUT_END in *.
        lia. }
      simpl reading_loop. rewrite Ht, He. simpl. rewrite H6, H5, Hmod.
      erewrite IH; [|exact HB'|reflexivity|reflexivity].
      simpl. rewrite <- app_assoc. simpl.
      destruct st; simpl in *; subst; reflexivity.
Qed.

(** A framed byte string received by a head entry that is in flight and has
    read nothing yet. *)
Lemma serial_data_frame :
  forall (st : RyderSerial) (head : TrainEntry) (rest : list TrainEntry)
         (B : list Z),
    state_symbol st = SENDING ->
    train_symbol st = head :: rest ->
    isEscapedByte head = false ->
    output_buffer head = [] ->
    Forall is_byte B ->
    let r := serial_data st (spec_frame B) in
    exists more,
      handle_calls (fst r)
      = handle_calls st ++ Resolve (entry_promise head) (VString B) :: more
      /\ (rest = [] ->
          more = [] /\ state_symbol (fst r) = IDLE /\ train_symbol (fst r) = []).
Proof.
  intros st head rest B Hs Ht He Ho HB r. subst r. unfold spec_frame.
  rewrite (serial_data_output st head rest _ Hs Ht).
  rewrite (reading_loop_escaped _ B _ head rest HB); [| |exact He].
  2:{ destruct st as [rol cl ser tr s lk wd ts tq pq hc em wr]; simpl in *.
      destruct wd; simpl; exact Ht. }
  rewrite Ho. simpl app.
  set (st1 := set_state IDLE _).
  destruct (next_calls st1) as [more Hmore].
  exists more. split.
  - rewrite Hmore. subst st1.
    destruct st as [rol cl ser tr s lk wd ts tq pq hc em wr]; simpl.
    destruct wd; simpl; now rewrite <- app_assoc.
  - intros ->.
    assert (Hnil : train_symbol st1 = []) by reflexivity.
    rewrite (next_nil st1 Hnil) in Hmore |- *. simpl.
    split; [|split; reflexivity].
    apply (app_inv_head (handle_calls st1)). now rewrite app_nil_r.
Qed.

(** C6: with A in flight and B queued behind it, the buffer [0x01, 0x02]
    resolves A with 1 and B with 2 in that order, and leaves the engine IDLE
    with an empty queue. *)
Theorem pipelined_responses :
  forall (st : RyderSerial) (A B : TrainEntry),
    state_symbol st = SENDING ->
    train_symbol st = [A; B] ->
    let r := serial_data st [1; 2] in
    handle_calls (fst r)
    = handle_calls st ++ [Resolve (entry_promise A) (VNumber 1);
                          Resolve (entry_promise B) (VNumber 2)]
    /\ state_symbol (fst r) = IDLE
    /\ train_symbol (fst r) = []
    /\ snd r = Normal.
Proof.
  intros st A B Hs Ht.
  destruct st as [rol cl ser tr s lk wd ts tq pq hc em wr].
  simpl in Hs, Ht. subst s tr.
  destruct wd as [h|]; cbn; rewrite <- app_assoc; repeat split.
Qed.

Lemma pipelined_responses_witness :
  state_symbol (two_queued false) = SENDING
  /\ train_symbol (two_queued false)
     = [mkTrainEntry [30] 0 false []; mkTrainEntry [2] 1 false []]
  /\ handle_calls (fst (serial_data (two_queued false) [1; 2]))
     = [Resolve 0 (VNumber 1); Resolve 1 (VNumber 2)]
  /\ state_symbol (fst (serial_data (two_queued false) [1; 2])) = IDLE
  /\ train_symbol (fst (serial_data (two_queued false) [1; 2])) = [].
Proof.
  pose proof (pipelined_responses (two_queued false)
                (mkTrainEntry [30] 0 false []) (mkTrainEntry [2] 1 false [])
                eq_refl eq_refl) as H.
  cbv zeta in H. destruct H as (Hc & Hs & Ht & _).
  repeat split; assumption.
Defined.


(** ** The LOCKED response *)

(** C2 (the code departs from it): under [reject_on_locked = false], with
    one command in flight and another queued, the buffer [0x0B, 0x01] emits
    [locked] once, but then rejects the head with ERROR_UNKNOWN_RESPONSE,
    puts the engine in IDLE and drops the remaining byte: the queued command
    is neither sent nor completed. *)
Theorem locked_byte_rejects_head :
  let r := serial_data (two_queued false) [11; 1] in
  state_symbol (two_queued false) = SENDING
  /\ reject_on_locked (two_queued false) = false
  /\ emitted (fst r) = emitted (two_queued false) ++ ["locked"%string]
  /\ handle_calls (fst r) = [Reject 0 (Error "ERROR_UNKNOWN_RESPONSE")]
  /\ state_symbol (fst r) = IDLE
  /\ train_symbol (fst r) = [mkTrainEntry [2] 1 false []]
  /\ written (fst r) = [[30]].
Proof.
  cbv zeta. repeat split.
Qed.

(** C1 (the code departs from it): under [reject_on_locked = true] a LOCKED
    byte rejects every entry but leaves them in the train. The command is
    then sent again by the next submission and its resolver is invoked by
    the next response, so both of its handles are invoked; a [clear()]
    instead invokes its rejecter a second time. *)
Theorem locked_entry_completed_twice :
  (exists st,
     run (constructor true)
         [PortOpen; Send (DNumber 30) false; Data [11];
          Send (DNumber 2) false; Data [1]] = Some st
     /\ handle_calls st = [Reject 0 (Error "ERROR_LOCKED"); Resolve 0 (VNumber 1)]
     /\ rejecter_calls 0 st = 1%nat
     /\ resolver_calls 0 st = 1%nat)
  /\ (exists st,
        run (constructor true)
            [PortOpen; Send (DNumber 30) false; Data [11]; Clear] = Some st
        /\ handle_calls st
           = [Reject 0 (Error "ERROR_LOCKED"); Reject 0 (Error "ERROR_CLEARED")]
        /\ rejecter_calls 0 st = 2%nat).
Proof.
  split; eexists; repeat split.
Qed.

(** ** The watchdog invariant *)

Lemma reject_each_eq :
  forall (e : JsError) (st : RyderSerial),
    reject_each e st
    = set_handle_calls
        (handle_calls st ++ map (fun c => Reject (entry_promise c) e) (train_symbol st))
        st.
Proof.
  intros e st. unfold reject_each.
  generalize (train_symbol st) as l.
  intros l. revert st.
  induction l as [|c l IH]; intros st.
  - simpl. rewrite app_nil_r. now destruct st.
  - simpl. rewrite IH. destruct st; simpl. unfold set_handle_calls; simpl.
    now rewrite <- app_assoc.
Qed.

Lemma clearTimeout_disarms :
  forall st, watchdog_ok st -> timeouts (clearTimeout st) = [].
Proof.
  intros st [H | [h [Hw Ht]]]; unfold clearTimeout.
  - destruct (watchdog_symbol st); simpl; rewrite H; reflexivity.
  - rewrite Hw. simpl. rewrite Ht. simpl. now rewrite Nat.eqb_refl.
Qed.

Lemma clearTimeout_state :
  forall st, state_symbol (clearTimeout st) = state_symbol st.
Proof. intros st. unfold clearTimeout. now destruct (watchdog_symbol st). Qed.

Lemma clearTimeout_train :
  forall st, train_symbol (clearTimeout st) = train_symbol st.
Proof. intros st. unfold clearTimeout. now destruct (watchdog_symbol st). Qed.

Lemma clearTimeout_rol :
  forall st, reject_on_locked (clearTimeout st) = reject_on_locked st.
Proof. intros st. unfold clearTimeout. now destruct (watchdog_symbol st). Qed.



















Lemma next_sends :
  forall st head rest,
    state_symbol st = IDLE -> train_symbol st = head :: rest ->
    serial_isOpen st = true ->
    next st
    = (setTimeout (clearTimeout (write (entry_data head) (set_state SENDING st))),
       Normal).
Proof.
  intros st head rest Hs Ht Ho. unfold next. rewrite Hs, Ht, Ho. reflexivity.
Qed.






(** ** The lock layer *)

Lemma lock_calls_length :
  forall (cs : list LockCall) (st : RyderSerial),
    (List.length (lock_symbol (lock_calls st cs)) + count_effective_unlock st cs
     = List.length (lock_symbol st) + count_lock cs)%nat.
Proof.
  induction cs as [|c cs IH]; intros st.
  - simpl. unfold count_lock. simpl. lia.
  - unfold lock_calls in *. simpl fold_left. simpl count_effective_unlock.
    specialize (IH (lock_call st c)). unfold count_lock in *.
    destruct c; simpl in *.
    + rewrite length_app in IH. simpl in IH. lia.
    + unfold locked, unlock in *.
      destruct (lock_symbol st) as [|h l] eqn:El; simpl in *;
        try rewrite El in IH; simpl in *; lia.
    + lia.
Qed.

(** C9: after any interleaving of [lock()], [unlock()] and [locked()] calls
    on a new instance, the length of the lock queue is the number of
    [lock()] calls minus the number of [unlock()] calls made while a lock
    was outstanding, which is never negative; [unlock()] with no lock
    outstanding changes nothing; [locked()] is true exactly when the queue
    is not empty. *)
Theorem lock_queue_length :
  forall (rol : bool) (cs : list LockCall),
    Z.of_nat (List.length (lock_symbol (lock_calls (constructor rol) cs)))
    = Z.of_nat (count_lock cs)
      - Z.of_nat (count_effective_unlock (constructor rol) cs)
    /\ 0 <= Z.of_nat (count_lock cs)
            - Z.of_nat (count_effective_unlock (constructor rol) cs)
    /\ (forall st, lock_symbol st = [] -> unlock st = (st, Normal))
    /\ (forall st, locked st = true <-> (1 <= List.length (lock_symbol st))%nat).
Proof.
  intros rol cs.
  pose proof (lock_calls_length cs (constructor rol)) as H.
  change (lock_symbol (constructor rol)) with (@nil LockHandle) in H.
  simpl in H.
  split; [lia|]. split; [lia|]. split.
  - intros st Hl. unfold unlock. now rewrite Hl.
  - intros st. unfold locked.
    destruct (lock_symbol st) as [|h l]; simpl; split; intros Hx;
      try discriminate; try reflexivity; lia.
Qed.

(** C4 (the code departs from it): [lock()] returns [Promise.resolve()] on
    every call, so the waiter of a second [lock()] taken before any
    [unlock()] is resolved from the start. *)
Theorem second_lock_already_resolved :
  let st1 := fst (lock (connected false)) in
  snd (lock (connected false)) = Promise_resolve
  /\ locked st1 = true
  /\ snd (lock st1) = Promise_resolve
  /\ (forall st, snd (lock st) = Promise_resolve).
Proof.
  cbv zeta. repeat split.
Qed.

(** ** Output records received by a head that has already read *)

(** What follows the resolution of the head at the end of an output
    record: [next()] may add invocations, and adds none when nothing else is
    queued. *)
Lemma resolved_then_next :
  forall (st0 st1 : RyderSerial) (rest : list TrainEntry) (c : HandleCall),
    handle_calls st1 = handle_calls st0 ++ [c] ->
    train_symbol st1 = rest ->
    state_symbol st1 = IDLE ->
    exists more,
      handle_calls (fst (next st1)) = handle_calls st0 ++ c :: more
      /\ (rest = [] ->
          more = [] /\ state_symbol (fst (next st1)) = IDLE
          /\ train_symbol (fst (next st1)) = []).
Proof.
  intros st0 st1 rest c Hc Ht Hs.
  destruct (next_calls st1) as [more Hmore].
  exists more. split.
  - rewrite Hmore, Hc. now rewrite <- app_assoc.
  - intros ->.
    rewrite (next_nil st1 Ht) in Hmore |- *. simpl.
    split; [|split; assumption].
    apply (app_inv_head (handle_calls st1)). now rewrite app_nil_r.
Qed.

(** A framed byte string received by a head entry that is in flight with no
    escape pending: the bytes are added to what the entry already holds. *)
Lemma serial_data_frame_from :
  forall (st : RyderSerial) (head : TrainEntry) (rest : list TrainEntry)
         (B : list Z),
    state_symbol st = SENDING ->
    train_symbol st = head :: rest ->
    isEscapedByte head = false ->
    Forall is_byte B ->
    let r := serial_data st (spec_frame B) in
    exists more,
      handle_calls (fst r)
      = handle_calls st
        ++ Resolve (entry_promise head) (VString (output_buffer head ++ B)) :: more
      /\ (rest = [] ->
          more = [] /\ state_symbol (fst r) = IDLE /\ train_symbol (fst r) = []).
Proof.
  intros st head rest B Hs Ht He HB r. subst r. unfold spec_frame.
  rewrite (serial_data_output st head rest _ Hs Ht).
  rewrite (reading_loop_escaped _ B _ head rest HB); [| |exact He].
  2:{ simpl. now rewrite clearTimeout_train. }
  apply resolved_then_next; simpl; try reflexivity.
  now rewrite clearTimeout_calls.
Qed.

(** A byte read while an escape is pending is appended as it is. *)
Lemma reading_loop_pending :
  forall (p : nat) (st : RyderSerial) (head : TrainEntry)
         (rest : list TrainEntry) (b : Z) (bytes : list Z),
    train_symbol st = head :: rest ->
    isEscapedByte head = true ->
    reading_loop p st (b :: bytes)
    = reading_loop p
        (set_head (mkTrainEntry (entry_data head) (entry_promise head) false
                     (output_buffer head ++ fromCharCode b)) st)
        bytes.
Proof.
  intros p st head rest b bytes Ht He.
  cbn [reading_loop]. rewrite Ht, He. reflexivity.
Qed.

(** C7 (as amended): with a command in flight, the buffer
    [0x04, 0xAA, 0x06, 0x05, 0xBB, 0x05] resolves it with what its output
    buffer already holds followed by [0xAA, 0x05, 0xBB]: the 0x05 after the
    escape is taken literally and the last 0x05 ends the output. For a
    command that has read nothing yet this is exactly [0xAA, 0x05, 0xBB].
    When nothing else is queued, this is the only handle invoked and the
    engine ends IDLE with an empty queue. *)
Theorem escaped_output_scenario :
  forall (st : RyderSerial) (head : TrainEntry) (rest : list TrainEntry),
    state_symbol st = SENDING ->
    train_symbol st = head :: rest ->
    let r := serial_data st [4; 170; 6; 5; 187; 5] in
    (exists more,
       handle_calls (fst r)
       = handle_calls st
         ++ Resolve (entry_promise head)
              (VString (output_buffer head ++ [170; 5; 187])) :: more
       /\ (rest = [] ->
           more = [] /\ state_symbol (fst r) = IDLE /\ train_symbol (fst r) = []))
    /\ (output_buffer head = [] ->
        exists more,
          handle_calls (fst r)
          = handle_calls st
            ++ Resolve (entry_promise head) (VString [170; 5; 187]) :: more).
Proof.
  intros st head rest Hs Ht r.
  assert (HB : Forall is_byte [5; 187])
    by (repeat constructor; unfold is_byte; lia).
  assert (G : exists more,
       handle_calls (fst r)
       = handle_calls st
         ++ Resolve (entry_promise head)
              (VString (output_buffer head ++ [170; 5; 187])) :: more
       /\ (rest = [] ->
           more = [] /\ state_symbol (fst r) = IDLE /\ train_symbol (fst r) = [])).
  { subst r.
    destruct (isEscapedByte head) eqn:He.
    - (* an escape is pending: 0xAA is taken literally all the same *)
      assert (E : [4; 170; 6; 5; 187; 5]
                  = RESPONSE_OUTPUT
                    :: 170 :: spec_escape [5; 187] ++ [RESPONSE_OUTPUT_END])
        by reflexivity.
      assert (Hmod : fromCharCode 170 = [170]) by (vm_compute; reflexivity).
      rewrite E, (serial_data_output st head rest _ Hs Ht).
      set (s0 := setTimeout (set_state READING (clearTimeout st))).
      assert (Ht0 : train_symbol s0 = head :: rest).
      { subst s0. simpl. now rewrite clearTimeout_train. }
      assert (Hc0 : handle_calls s0 = handle_calls st).
      { subst s0. simpl. apply clearTimeout_calls. }
      clearbody s0.
      rewrite (reading_loop_pending _ s0 head rest 170 _ Ht0 He), Hmod.
      set (head' := mkTrainEntry _ _ false _).
      rewrite (reading_loop_escaped _ [5; 187] _ head' rest HB);
        [| cbn [train_symbol set_head set_train]; now rewrite Ht0 | reflexivity].
      apply resolved_then_next; [|reflexivity|reflexivity].
      cbn [handle_calls set_state set_train invoke set_handle_calls set_head].
      rewrite Hc0. subst head'. cbn [output_buffer].
      rewrite <- app_assoc. reflexivity.
    - assert (E : [4; 170; 6; 5; 187; 5] = spec_frame [170; 5; 187])
        by reflexivity.
      rewrite E. apply serial_data_frame_from; try assumption.
      repeat constructor; unfold is_byte; lia. }
  split; [exact G|].
  intros Ho. destruct G as [more [G _]]. exists more. rewrite Ho in G. exact G.
Qed.

Lemma escaped_output_scenario_witness :
  state_symbol (one_in_flight false) = SENDING
  /\ train_symbol (one_in_flight false) = [mkTrainEntry [30] 0 false []]
  /\ exists more,
       handle_calls (fst (serial_data (one_in_flight false) [4; 170; 6; 5; 187; 5]))
       = handle_calls (one_in_flight false)
         ++ Resolve 0 (VString [170; 5; 187]) :: more.
Proof.
  split; [reflexivity|]. split; [reflexivity|].
  pose proof (escaped_output_scenario (one_in_flight false)
                (mkTrainEntry [30] 0 false []) [] eq_refl eq_refl) as H.
  cbv zeta in H. exact (proj2 H eq_refl).
Defined.

(** C7 as stated fails: a command read in part, then displaced by a
    prepended command and sent again, is in flight with [0x41] already in its
    output buffer, and the buffer resolves it with [0x41, 0xAA, 0x05, 0xBB]. *)
Lemma escaped_output_scenario_counterexample :
  exists st,
    run (constructor false) displaced_head_run = Some st
    /\ state_symbol st = SENDING
    /\ train_symbol st = [mkTrainEntry [30] 0 false [65]]
    /\ handle_calls (fst (serial_data st [4; 170; 6; 5; 187; 5]))
       = handle_calls st ++ [Resolve 0 (VString [65; 170; 5; 187])]
    /\ ~ (exists more,
            handle_calls (fst (serial_data st [4; 170; 6; 5; 187; 5]))
            = handle_calls st ++ Resolve 0 (VString [170; 5; 187]) :: more).
Proof.
  eexists. split; [vm_compute; reflexivity|].
  split; [reflexivity|]. split; [reflexivity|].
  split; [vm_compute; reflexivity|].
  intros [more H]. vm_compute in H. discriminate H.
Qed.

(** C5 (as amended): for every byte string B, the frame OUTPUT, B with
    ESC_SEQUENCE before each control byte, OUTPUT_END, received in one buffer
    by a head entry that is in flight with no escape pending, resolves that
    entry with what its output buffer already holds followed by B; for an
    entry that has read nothing yet, with exactly B. *)
Theorem escape_round_trip :
  forall (st : RyderSerial) (head : TrainEntry) (rest : list TrainEntry)
         (B : list Z),
    Forall is_byte B ->
    state_symbol st = SENDING ->
    train_symbol st = head :: rest ->
    isEscapedByte head = false ->
    (exists more,
       handle_calls (fst (serial_data st (spec_frame B)))
       = handle_calls st
         ++ Resolve (entry_promise head) (VString (output_buffer head ++ B)) :: more)
    /\ (output_buffer head = [] ->
        exists more,
          handle_calls (fst (serial_data st (spec_frame B)))
          = handle_calls st ++ Resolve (entry_promise head) (VString B) :: more).
Proof.
  intros st head rest B HB Hs Ht He.
  destruct (serial_data_frame_from st head rest B Hs Ht He HB) as [more [H _]].
  split.
  - exists more. exact H.
  - intros Ho. exists more. rewrite Ho in H. exact H.
Qed.

Lemma escape_round_trip_witness :
  Forall is_byte [1; 5; 6; 65; 255]
  /\ state_symbol (one_in_flight false) = SENDING
  /\ train_symbol (one_in_flight false) = [mkTrainEntry [30] 0 false []]
  /\ exists more,
       handle_calls (fst (serial_data (one_in_flight false)
                            (spec_frame [1; 5; 6; 65; 255])))
       = handle_calls (one_in_flight false)
         ++ Resolve 0 (VString [1; 5; 6; 65; 255]) :: more.
Proof.
  assert (HB : Forall is_byte [1; 5; 6; 65; 255])
    by (repeat constructor; unfold is_byte; lia).
  split; [exact HB|]. split; [reflexivity|]. split; [reflexivity|].
  exact (proj2 (escape_round_trip (one_in_flight false)
                  (mkTrainEntry [30] 0 false []) [] [1; 5; 6; 65; 255]
                  HB eq_refl eq_refl eq_refl) eq_refl).
Defined.

(** C5 as stated fails: a command read in part, then displaced by a
    prepended command and sent again, is in flight with bytes already in its
    output buffer, or with an escape pending. With [0x41] in the buffer the
    frame of [0xAA] resolves it with [0x41, 0xAA]; with an escape pending the
    frame of [0x05] resolves it with [0x06]. *)
Lemma escape_round_trip_counterexample :
  (exists st,
     run (constructor false) displaced_head_run = Some st
     /\ state_symbol st = SENDING
     /\ train_symbol st = [mkTrainEntry [30] 0 false [65]]
     /\ handle_calls (fst (serial_data st (spec_frame [170])))
        = handle_calls st ++ [Resolve 0 (VString [65; 170])]
     /\ ~ (exists more,
             handle_calls (fst (serial_data st (spec_frame [170])))
             = handle_calls st ++ Resolve 0 (VString [170]) :: more))
  /\ (exists st,
        run (constructor false) pending_escape_run = Some st
        /\ state_symbol st = SENDING
        /\ train_symbol st = [mkTrainEntry [30] 0 true []]
        /\ handle_calls (fst (serial_data st (spec_frame [5])))
           = handle_calls st ++ [Resolve 0 (VString [6])]
        /\ ~ (exists more,
                handle_calls (fst (serial_data st (spec_frame [5])))
                = handle_calls st ++ Resolve 0 (VString [5]) :: more)).
Proof.
  split; eexists; (split; [vm_compute; reflexivity|]);
    (split; [reflexivity|]); (split; [reflexivity|]);
    (split; [vm_compute; reflexivity|]);
    intros [more H]; vm_compute in H; discriminate H.
Qed.

(** ** Further properties of the engine *)

Lemma clear_closing : forall st, closing (fst (clear st)) = closing st.
Proof.
  intros st. unfold clear. rewrite reject_each_eq.
  destruct (release_each _); simpl; unfold clearTimeout;
    destruct (watchdog_symbol st); reflexivity.
Qed.

Lemma release_each_throws :
  forall l, l <> [] -> release_each l = Throw TypeError.
Proof. intros [|[] l] H; [contradiction|reflexivity]. Qed.

Lemma clear_effect :
  forall st : RyderSerial,
    train_symbol (fst (clear st)) = []
    /\ state_symbol (fst (clear st)) = IDLE
    /\ handle_calls (fst (clear st))
       = handle_calls st
         ++ map (fun c => Reject (entry_promise c) (Error "ERROR_CLEARED"))
                (train_symbol st)
    /\ written (fst (clear st)) = written st
    /\ (lock_symbol st = [] ->
        snd (clear st) = Normal /\ lock_symbol (fst (clear st)) = [])
    /\ (lock_symbol st <> [] ->
        snd (clear st) = Throw TypeError
        /\ lock_symbol (fst (clear st)) = lock_symbol st).
Proof.
  intros st. unfold clear. rewrite reject_each_eq.
  assert (Hl : lock_symbol (set_state IDLE (set_train []
                 (set_handle_calls
                    (handle_calls (clearTimeout st)
                     ++ map (fun c => Reject (entry_promise c) (Error "ERROR_CLEARED"))
                          (train_symbol (clearTimeout st)))
                    (clearTimeout st)))) = lock_symbol st).
  { simpl. unfold clearTimeout. destruct (watchdog_symbol st); reflexivity. }
  rewrite Hl.
  assert (Hw : written (clearTimeout st) = written st).
  { unfold clearTimeout. destruct (watchdog_symbol st); reflexivity. }
  destruct (lock_symbol st) as [|h l] eqn:El.
  - simpl. rewrite clearTimeout_calls, clearTimeout_train.
    repeat split; auto; try (intros Hx; contradiction); congruence.
  - rewrite release_each_throws by discriminate. simpl.
    rewrite clearTimeout_calls, clearTimeout_train.
    repeat split; auto; try discriminate.
Qed.

(** X1: [clear()] empties the queue, puts the engine in IDLE and invokes the
    rejecter of every queued entry once, with ERROR_CLEARED, in queue order;
    nothing is written. With no lock outstanding it returns normally and the
    lock queue is empty; with a lock outstanding, calling the first lock
    handle raises a TypeError and the lock queue is left as it was. *)
Theorem clear_rejects_all :
  forall st : RyderSerial,
    train_symbol (fst (clear st)) = []
    /\ state_symbol (fst (clear st)) = IDLE
    /\ handle_calls (fst (clear st))
       = handle_calls st
         ++ map (fun c => Reject (entry_promise c) (Error "ERROR_CLEARED"))
                (train_symbol st)
    /\ written (fst (clear st)) = written st
    /\ (lock_symbol st = [] ->
        snd (clear st) = Normal /\ lock_symbol (fst (clear st)) = [])
    /\ (lock_symbol st <> [] ->
        snd (clear st) = Throw TypeError
        /\ lock_symbol (fst (clear st)) = lock_symbol st).
Proof.
  intros st. unfold clear. rewrite reject_each_eq.
  assert (Hl : lock_symbol (set_state IDLE (set_train []
                 (set_handle_calls
                    (handle_calls (clearTimeout st)
                     ++ map (fun c => Reject (entry_promise c) (Error "ERROR_CLEARED"))
                          (train_symbol (clearTimeout st)))
                    (clearTimeout st)))) = lock_symbol st).
  { simpl. unfold clearTimeout. destruct (watchdog_symbol st); reflexivity. }
  rewrite Hl.
  assert (Hw : written (clearTimeout st) = written st).
  { unfold clearTimeout. destruct (watchdog_symbol st); reflexivity. }
  destruct (lock_symbol st) as [|h l] eqn:El.
  - simpl. rewrite clearTimeout_calls, clearTimeout_train.
    repeat split; auto; try (intros Hx; contradiction); congruence.
  - rewrite release_each_throws by discriminate. simpl.
    rewrite clearTimeout_calls, clearTimeout_train.
    repeat split; auto; try discriminate.
Qed.

(** X2: after [close()] the instance is marked as closing, and a second
    [close()] changes nothing. *)
Theorem close_idempotent :
  forall st : RyderSerial,
    closing (fst (close st)) = true
    /\ close (fst (close st)) = (fst (close st), Normal).
Proof.
  intros st.
  assert (H : closing (fst (close st)) = true).
  { unfold close. destruct (closing st) eqn:Ec; [exact Ec|].
    pose proof (clear_closing (set_closing true st)) as Hc.
    destruct (clear (set_closing true st)) as [st' [|e]]; simpl in *; exact Hc. }
  split; [exact H|].
  unfold close at 1. now rewrite H.
Qed.

Lemma clear_serial : forall st, serial (fst (clear st)) = serial st.
Proof.
  intros st. unfold clear. rewrite reject_each_eq.
  destruct (release_each _); simpl; unfold clearTimeout;
    destruct (watchdog_symbol st); reflexivity.
Qed.

Lemma next_closing : forall st, closing (fst (next st)) = closing st.
Proof.
  intros st. unfold next.
  destruct (state_symbol st); try reflexivity.
  destruct (train_symbol st); try reflexivity.
  destruct (negb (serial_isOpen st)).
  - pose proof (clear_closing st) as Hc.
    destruct (clear st) as [st' [|e]]; simpl in *; exact Hc.
  - simpl. unfold clearTimeout. simpl. destruct (watchdog_symbol st); reflexivity.
Qed.

Lemma next_serial : forall st, serial (fst (next st)) = serial st.
Proof.
  intros st. unfold next.
  destruct (state_symbol st); try reflexivity.
  destruct (train_symbol st); try reflexivity.
  destruct (negb (serial_isOpen st)).
  - pose proof (clear_serial st) as Hc.
    destruct (clear st) as [st' [|e]]; simpl in *; exact Hc.
  - simpl. unfold clearTimeout. simpl. destruct (watchdog_symbol st); reflexivity.
Qed.

(** X3: [open()] on an instance whose port object exists but is not open
    runs [close()] first, which sets [closing]; nothing resets it, so once the
    new port has opened, [close()] returns at once and the port stays
    open. *)
Theorem reopen_disables_close :
  forall st : RyderSerial,
    serial st = Some (mkSerialPort false) ->
    let st1 := fst (open st) in
    let st2 := fst (on_open st1) in
    closing st1 = true
    /\ serial st1 = Some (mkSerialPort false)
    /\ serial_isOpen st2 = true
    /\ close st2 = (st2, Normal).
Proof.
  intros st Hs st1 st2.
  assert (H1 : closing st1 = true /\ serial st1 = Some (mkSerialPort false)).
  { subst st1. unfold open, serial_isOpen. simpl. rewrite Hs. simpl.
    unfold close. simpl.
    pose proof (clear_closing (set_closing true (set_closing false st))) as Hc.
    pose proof (clear_serial (set_closing true (set_closing false st))) as Hser.
    simpl in Hser.
    destruct (clear (set_closing true (set_closing false st))) as [st' [|e]];
      simpl in *; split; auto. congruence. }
  destruct H1 as [Hc1 Hs1].
  split; [exact Hc1|]. split; [exact Hs1|].
  assert (Hc2 : closing st2 = true /\ serial_isOpen st2 = true).
  { subst st2. unfold on_open.
    rewrite next_closing. unfold serial_isOpen. rewrite next_serial.
    simpl. split; [exact Hc1|reflexivity]. }
  destruct Hc2 as [Hc2 Ho2]. split; [exact Ho2|].
  unfold close. now rewrite Hc2.
Qed.

Lemma reopen_disables_close_witness :
  serial (fst (on_close (connected false))) = Some (mkSerialPort false)
  /\ closing (fst (open (fst (on_close (connected false))))) = true
  /\ close (fst (on_open (fst (open (fst (on_close (connected false)))))))
     = (fst (on_open (fst (open (fst (on_close (connected false)))))), Normal).
Proof.
  pose proof (reopen_disables_close (fst (on_close (connected false))) eq_refl) as H.
  cbv zeta in H. destruct H as (H1 & _ & _ & H4).
  split; [reflexivity|]. split; [exact H1|exact H4].
Defined.


(** X4: while SENDING, an OK, SEND_INPUT or REJECTED byte followed by more
    bytes resolves the head with that byte, and the rest of the buffer is
    decoded against what is then the head of the queue, in SENDING, although
    that entry has not been written to the port. *)
Theorem ok_byte_continues :
  forall (st : RyderSerial) (head : TrainEntry) (rest : list TrainEntry)
         (b : Z) (data : list Z),
    state_symbol st = SENDING ->
    train_symbol st = head :: rest ->
    b = RESPONSE_OK \/ b = RESPONSE_SEND_INPUT \/ b = RESPONSE_REJECTED ->
    data <> [] ->
    serial_data st (b :: data)
    = serial_data
        (invoke (Resolve (entry_promise head) (VNumber b))
                (shift (clearTimeout st)))
        data.
Proof.
  intros st head rest b data Hs Ht Hb Hd.
  destruct data as [|c data]; [contradiction|].
  change (serial_data st (b :: c :: data))
    with (serial_data_body (fun st' => serial_data st' (c :: data)) st (b :: c :: data)).
  unfold serial_data_body. rewrite Hs, clearTimeout_train, Ht, clearTimeout_state, Hs.
  destruct Hb as [-> | [-> | ->]]; reflexivity.
Qed.

Lemma ok_byte_continues_witness :
  state_symbol (two_queued false) = SENDING
  /\ serial_data (two_queued false) [3; 4; 65]
     = serial_data
         (invoke (Resolve 0 (VNumber 3)) (shift (clearTimeout (two_queued false))))
         [4; 65].
Proof.
  split; [reflexivity|].
  apply (ok_byte_continues (two_queued false) (mkTrainEntry [30] 0 false [])
           [mkTrainEntry [2] 1 false []] 3 [4; 65] eq_refl eq_refl).
  - right; right; reflexivity.
  - discriminate.
Defined.

(** X5: while SENDING, a WAIT_USER_CONFIRM byte followed by more bytes emits
    [wait_user_confirm], completes nothing, and the rest of the buffer is
    decoded against the same head. *)
Theorem wait_user_confirm_continues :
  forall (st : RyderSerial) (head : TrainEntry) (rest : list TrainEntry)
         (data : list Z),
    state_symbol st = SENDING ->
    train_symbol st = head :: rest ->
    data <> [] ->
    serial_data st (RESPONSE_WAIT_USER_CONFIRM :: data)
    = serial_data (emit "wait_user_confirm" (clearTimeout st)) data.
Proof.
  intros st head rest data Hs Ht Hd.
  destruct data as [|c data]; [contradiction|].
  change (serial_data st (RESPONSE_WAIT_USER_CONFIRM :: c :: data))
    with (serial_data_body (fun st' => serial_data st' (c :: data)) st
            (RESPONSE_WAIT_USER_CONFIRM :: c :: data)).
  unfold serial_data_body. rewrite Hs, clearTimeout_train, Ht, clearTimeout_state, Hs.
  reflexivity.
Qed.

Lemma wait_user_confirm_continues_witness :
  state_symbol (one_in_flight false) = SENDING
  /\ serial_data (one_in_flight false) [10; 1]
     = serial_data (emit "wait_user_confirm" (clearTimeout (one_in_flight false)))
         [1].
Proof.
  split; [reflexivity|].
  apply (wait_user_confirm_continues (one_in_flight false)
           (mkTrainEntry [30] 0 false []) [] [1] eq_refl eq_refl).
  discriminate.
Defined.

Lemma clearTimeout_written : forall st, written (clearTimeout st) = written st.
Proof. intros st. unfold clearTimeout. now destruct (watchdog_symbol st). Qed.

Lemma clearTimeout_emitted : forall st, emitted (clearTimeout st) = emitted st.
Proof. intros st. unfold clearTimeout. now destruct (watchdog_symbol st). Qed.

Lemma clearTimeout_serial_isOpen :
  forall st, serial_isOpen (clearTimeout st) = serial_isOpen st.
Proof.
  intros st. unfold serial_isOpen, clearTimeout.
  now destruct (watchdog_symbol st).
Qed.

Lemma clearTimeout_watchdog :
  forall st, watchdog_symbol (clearTimeout st) = watchdog_symbol st.
Proof.
  intros st. unfold clearTimeout.
  destruct (watchdog_symbol st) eqn:E; simpl; congruence.
Qed.





Lemma response_errors_range :
  forall b, (b < 246 \/ 255 < b) -> response_errors b = None.
Proof.
  intros b H. unfold response_errors.
  repeat match goal with
         | |- context [?x =? ?y] => destruct (Z.eqb_spec x y); [lia|]
         end.
  reflexivity.
Qed.

Lemma response_errors_known :
  forall b, 246 <= b <= 255 -> exists m, response_errors b = Some m.
Proof.
  intros b H. unfold response_errors.
  repeat match goal with
         | |- context [?x =? ?y] => destruct (Z.eqb_spec x y); [eexists; reflexivity|]
         end.
  lia.
Qed.

(** X7: a one-byte buffer received while SENDING that is none of OK,
    SEND_INPUT, REJECTED, OUTPUT, WAIT_USER_CONFIRM (nor LOCKED under
    [reject_on_locked]) rejects the head: with the message the table
    [response_errors] has for bytes 246..255, with ERROR_UNKNOWN_RESPONSE for
    every other byte. With nothing else queued the engine ends IDLE. *)
Theorem error_byte_rejects_head :
  forall (st : RyderSerial) (head : TrainEntry) (rest : list TrainEntry) (b : Z),
    state_symbol st = SENDING ->
    train_symbol st = head :: rest ->
    b <> RESPONSE_OK -> b <> RESPONSE_SEND_INPUT -> b <> RESPONSE_REJECTED ->
    b <> RESPONSE_OUTPUT -> b <> RESPONSE_WAIT_USER_CONFIRM ->
    (b = RESPONSE_LOCKED -> reject_on_locked st = false) ->
    let r := serial_data st [b] in
    (exists more,
       handle_calls (fst r)
       = handle_calls st
         ++ Reject (entry_promise head) (Error (error_message [b])) :: more
       /\ (rest = [] ->
           more = [] /\ state_symbol (fst r) = IDLE /\ train_symbol (fst r) = []))
    /\ (246 <= b <= 255 -> response_errors b = Some (error_message [b]))
    /\ (b < 246 \/ 255 < b -> error_message [b] = "ERROR_UNKNOWN_RESPONSE"%string).
Proof.
  intros st head rest b Hs Ht H1 H2 H3 H4 H10 H11 r.
  split; [|split].
  - subst r. simpl. unfold serial_data_body.
    rewrite Hs, clearTimeout_train, Ht, clearTimeout_state, Hs, clearTimeout_rol.
    unfold first_is.
    assert (E : (b =? RESPONSE_LOCKED) && reject_on_locked st = false).
    { destruct (Z.eqb_spec b RESPONSE_LOCKED) as [e|]; [|reflexivity].
      now rewrite (H11 e). }
    rewrite E.
    destruct (Z.eqb_spec b RESPONSE_OK); [contradiction|].
    destruct (Z.eqb_spec b RESPONSE_SEND_INPUT); [contradiction|].
    destruct (Z.eqb_spec b RESPONSE_REJECTED); [contradiction|].
    destruct (Z.eqb_spec b RESPONSE_OUTPUT); [contradiction|].
    destruct (Z.eqb_spec b RESPONSE_WAIT_USER_CONFIRM); [contradiction|].
    simpl orb. cbv iota. simpl more_in_buffer. cbv iota.
    set (st0 := if b =? RESPONSE_LOCKED then _ else _).
    assert (Hc0 : handle_calls st0 = handle_calls st).
    { subst st0. destruct (b =? RESPONSE_LOCKED); simpl; apply clearTimeout_calls. }
    assert (Ht0 : train_symbol st0 = head :: rest).
    { subst st0. destruct (b =? RESPONSE_LOCKED); simpl;
        rewrite clearTimeout_train; exact Ht. }
    clearbody st0.
    set (st1 := set_state IDLE _).
    destruct (next_calls st1) as [more Hmore].
    exists more. split.
    + rewrite Hmore. subst st1. simpl. rewrite Hc0. now rewrite <- app_assoc.
    + intros ->.
      assert (Hnil : train_symbol st1 = []) by (subst st1; simpl; now rewrite Ht0).
      rewrite (next_nil st1 Hnil) in Hmore |- *. simpl.
      split; [|split; [reflexivity|exact Hnil]].
      apply (app_inv_head (handle_calls st1)). now rewrite app_nil_r.
  - intros Hb. destruct (response_errors_known b Hb) as [m Hm].
    unfold error_message. now rewrite Hm.
  - intros Hb. unfold error_message. now rewrite (response_errors_range b Hb).
Qed.

Lemma error_byte_rejects_head_witness :
  state_symbol (one_in_flight false) = SENDING
  /\ exists more,
       handle_calls (fst (serial_data (one_in_flight false) [247]))
       = handle_calls (one_in_flight false)
         ++ Reject 0 (Error (error_message [247])) :: more.
Proof.
  split; [reflexivity|].
  assert (H11 : 247 = RESPONSE_LOCKED -> reject_on_locked (one_in_flight false) = false)
    by (intros _; reflexivity).
  pose proof (error_byte_rejects_head (one_in_flight false)
                (mkTrainEntry [30] 0 false []) [] 247 eq_refl eq_refl) as H.
  assert (N1 : 247 <> RESPONSE_OK) by discriminate.
  assert (N2 : 247 <> RESPONSE_SEND_INPUT) by discriminate.
  assert (N3 : 247 <> RESPONSE_REJECTED) by discriminate.
  assert (N4 : 247 <> RESPONSE_OUTPUT) by discriminate.
  assert (N5 : 247 <> RESPONSE_WAIT_USER_CONFIRM) by discriminate.
  specialize (H N1 N2 N3 N4 N5 H11). cbv zeta in H.
  destruct H as [[more [Hm _]] _]. exists more. exact Hm.
Defined.

(** X8: an empty buffer received while SENDING is taken for an unknown
    response: the head is rejected with ERROR_UNKNOWN_RESPONSE. *)
Theorem empty_buffer_rejects_head :
  forall (st : RyderSerial) (head : TrainEntry) (rest : list TrainEntry),
    state_symbol st = SENDING ->
    train_symbol st = head :: rest ->
    let r := serial_data st [] in
    exists more,
      handle_calls (fst r)
      = handle_calls st
        ++ Reject (entry_promise head) (Error "ERROR_UNKNOWN_RESPONSE") :: more
      /\ (rest = [] ->
          more = [] /\ state_symbol (fst r) = IDLE /\ train_symbol (fst r) = []).
Proof.
  intros st head rest Hs Ht r. subst r.
  simpl. unfold serial_data_body.
  rewrite Hs, clearTimeout_train, Ht, clearTimeout_state, Hs. simpl.
  set (st1 := set_state IDLE _).
  destruct (next_calls st1) as [more Hmore].
  exists more. split.
  - rewrite Hmore. subst st1. simpl. rewrite clearTimeout_calls.
    now rewrite <- app_assoc.
  - intros ->.
    assert (Hnil : train_symbol st1 = [])
      by (subst st1; simpl; now rewrite clearTimeout_train, Ht).
    rewrite (next_nil st1 Hnil) in Hmore |- *. simpl.
    split; [|split; [reflexivity|exact Hnil]].
    apply (app_inv_head (handle_calls st1)). now rewrite app_nil_r.
Qed.

Lemma empty_buffer_rejects_head_witness :
  state_symbol (one_in_flight false) = SENDING
  /\ exists more,
       handle_calls (fst (serial_data (one_in_flight false) []))
       = handle_calls (one_in_flight false)
         ++ Reject 0 (Error "ERROR_UNKNOWN_RESPONSE") :: more.
Proof.
  split; [reflexivity|].
  pose proof (empty_buffer_rejects_head (one_in_flight false)
                (mkTrainEntry [30] 0 false []) [] eq_refl eq_refl) as H.
  cbv zeta in H. destruct H as [more [Hm _]]. exists more. exact Hm.
Defined.

(** X9: under [reject_on_locked], a buffer that starts with LOCKED while
    SENDING rejects every queued entry with ERROR_LOCKED in queue order,
    emits [locked] once and leaves the engine IDLE with no watchdog; the
    entries stay in the queue, nothing is written and the rest of the buffer
    is not read. *)
Theorem locked_rejects_every_entry :
  forall (st : RyderSerial) (data : list Z),
    watchdog_ok st ->
    state_symbol st = SENDING ->
    train_symbol st <> [] ->
    reject_on_locked st = true ->
    let r := serial_data st (RESPONSE_LOCKED :: data) in
    handle_calls (fst r)
    = handle_calls st
      ++ map (fun c => Reject (entry_promise c) (Error "ERROR_LOCKED"))
             (train_symbol st)
    /\ emitted (fst r) = emitted st ++ ["locked"%string]
    /\ state_symbol (fst r) = IDLE
    /\ train_symbol (fst r) = train_symbol st
    /\ written (fst r) = written st
    /\ armed (fst r) = 0%nat
    /\ snd r = Normal.
Proof.
  intros st data Hok Hs Hn Hr r. subst r.
  change (serial_data st (RESPONSE_LOCKED :: data))
    with (serial_data_body (fun st' => serial_data st' data) st
            (RESPONSE_LOCKED :: data)).
  unfold serial_data_body.
  rewrite Hs, clearTimeout_train.
  destruct (train_symbol st) as [|head rest] eqn:Ht; [contradiction|].
  rewrite clearTimeout_state, Hs, clearTimeout_rol, Hr. simpl.
  rewrite reject_each_eq. simpl.
  rewrite clearTimeout_calls, clearTimeout_train, Ht. unfold armed. simpl.
  rewrite (clearTimeout_disarms st Hok).
  repeat split; auto.
  - unfold clearTimeout. now destruct (watchdog_symbol st).
  - unfold clearTimeout. now destruct (watchdog_symbol st).
Qed.

Lemma locked_rejects_every_entry_witness :
  watchdog_ok (two_queued true)
  /\ reject_on_locked (two_queued true) = true
  /\ handle_calls (fst (serial_data (two_queued true) [11; 1]))
     = handle_calls (two_queued true)
       ++ map (fun c => Reject (entry_promise c) (Error "ERROR_LOCKED"))
              (train_symbol (two_queued true))
  /\ train_symbol (fst (serial_data (two_queued true) [11; 1]))
     = train_symbol (two_queued true).
Proof.
  assert (Hok : watchdog_ok (two_queued true)).
  { right. exists 0%nat. split; reflexivity. }
  split; [exact Hok|]. split; [reflexivity|].
  assert (Hn : train_symbol (two_queued true) <> []) by discriminate.
  pose proof (locked_rejects_every_entry (two_queued true) [1] Hok eq_refl Hn eq_refl)
    as H.
  cbv zeta in H. destruct H as (H1 & _ & _ & H4 & _).
  split; [exact H1|exact H4].
Defined.

(** What [next] does when it finds work, an idle engine and an open port. *)
Lemma next_sends_fields :
  forall st head rest,
    watchdog_ok st ->
    state_symbol st = IDLE -> train_symbol st = head :: rest ->
    serial_isOpen st = true ->
    state_symbol (fst (next st)) = SENDING
    /\ train_symbol (fst (next st)) = head :: rest
    /\ written (fst (next st)) = written st ++ [entry_data head]
    /\ handle_calls (fst (next st)) = handle_calls st
    /\ armed (fst (next st)) = 1%nat
    /\ watchdog_ok (fst (next st))
    /\ serial_isOpen (fst (next st)) = true
    /\ promise_seq (fst (next st)) = promise_seq st.
Proof.
  intros st head rest Hok Hs Ht Ho.
  rewrite (next_sends st head rest Hs Ht Ho). simpl.
  assert (Hd : timeouts (clearTimeout (write (entry_data head) (set_state SENDING st))) = []).
  { apply clearTimeout_disarms. exact Hok. }
  rewrite clearTimeout_state, clearTimeout_train, clearTimeout_written,
    clearTimeout_calls. simpl.
  unfold armed, watchdog_ok, serial_isOpen. simpl. rewrite Hd.
  repeat split; auto.
  - right. eexists; split; reflexivity.
  - unfold clearTimeout. simpl. destruct (watchdog_symbol st); exact Ho.
  - unfold clearTimeout. simpl. destruct (watchdog_symbol st); reflexivity.
Qed.

(** X10: when the watchdog fires with a command at the head of the queue
    and the port open, that command's rejecter is invoked with
    ERROR_WATCHDOG and it leaves the queue; the next queued command, if any,
    is written and gets a fresh watchdog, otherwise the engine is IDLE with
    no watchdog. *)
Theorem watchdog_expiry_advances :
  forall (st st' : RyderSerial) (h : nat) (head : TrainEntry)
         (rest : list TrainEntry),
    watchdog_ok st ->
    train_symbol st = head :: rest ->
    serial_isOpen st = true ->
    step st (Timeout h) = Some st' ->
    handle_calls st'
    = handle_calls st ++ [Reject (entry_promise head) (Error "ERROR_WATCHDOG")]
    /\ train_symbol st' = rest
    /\ match rest with
       | [] => state_symbol st' = IDLE /\ armed st' = 0%nat
               /\ written st' = written st
       | c :: _ => state_symbol st' = SENDING /\ armed st' = 1%nat
                   /\ written st' = written st ++ [entry_data c]
       end.
Proof.
  intros st st' h head rest Hok Ht Ho Hstep.
  simpl in Hstep.
  destruct (existsb (Nat.eqb h) (timeouts st)) eqn:Hh; [|discriminate].
  injection Hstep as <-.
  assert (Hd : timeouts (expire h st) = []).
  { destruct Hok as [H | [h' [_ H]]]; rewrite H in Hh; simpl in Hh; [discriminate|].
    rewrite orb_false_r in Hh. apply Nat.eqb_eq in Hh. subst h'.
    simpl. rewrite H. simpl. now rewrite Nat.eqb_refl. }
  unfold serial_watchdog.
  change (train_symbol (expire h st)) with (train_symbol st). rewrite Ht.
  set (s := set_state IDLE _).
  assert (Hs1 : state_symbol s = IDLE) by reflexivity.
  assert (Ht1 : train_symbol s = rest) by (subst s; simpl; now rewrite Ht).
  assert (Hc1 : handle_calls s
                = handle_calls st
                  ++ [Reject (entry_promise head) (Error "ERROR_WATCHDOG")])
    by reflexivity.
  assert (Hw1 : written s = written st) by reflexivity.
  assert (Hd1 : timeouts s = []) by exact Hd.
  assert (Ho1 : serial_isOpen s = true) by exact Ho.
  clearbody s.
  destruct rest as [|c rest'].
  - rewrite (next_nil s Ht1). simpl. unfold armed. rewrite Hd1. auto.
  - destruct (next_sends_fields s c rest' (or_introl Hd1) Hs1 Ht1 Ho1)
      as (A1 & A2 & A3 & A4 & A5 & _).
    rewrite A4, A2, A3, Hw1. auto.
Qed.

Lemma watchdog_expiry_advances_witness :
  watchdog_ok (two_queued false)
  /\ step (two_queued false) (Timeout 0)
     = Some (fst (serial_watchdog (expire 0 (two_queued false))))
  /\ handle_calls (fst (serial_watchdog (expire 0 (two_queued false))))
     = handle_calls (two_queued false) ++ [Reject 0 (Error "ERROR_WATCHDOG")]
  /\ train_symbol (fst (serial_watchdog (expire 0 (two_queued false))))
     = [mkTrainEntry [2] 1 false []].
Proof.
  assert (Hok : watchdog_ok (two_queued false)).
  { right. exists 0%nat. split; reflexivity. }
  assert (Hstep : step (two_queued false) (Timeout 0)
                  = Some (fst (serial_watchdog (expire 0 (two_queued false)))))
    by (vm_compute; reflexivity).
  split; [exact Hok|]. split; [exact Hstep|].
  destruct (watchdog_expiry_advances (two_queued false)
              (fst (serial_watchdog (expire 0 (two_queued false)))) 0
              (mkTrainEntry [30] 0 false []) [mkTrainEntry [2] 1 false []]
              Hok eq_refl eq_refl Hstep) as (H1 & H2 & _).
  split; [exact H1|exact H2].
Defined.

(** X11: when [next()] finds the engine IDLE with work queued and the port
    not open (and no lock outstanding), every queued entry is rejected with
    ERROR_CLEARED and the former head's rejecter is then invoked a second
    time with ERROR_DISCONNECTED; the queue ends empty and nothing is
    written. *)
Theorem next_port_closed :
  forall (st : RyderSerial) (head : TrainEntry) (rest : list TrainEntry),
    state_symbol st = IDLE ->
    train_symbol st = head :: rest ->
    serial_isOpen st = false ->
    lock_symbol st = [] ->
    handle_calls (fst (next st))
    = handle_calls st
      ++ map (fun c => Reject (entry_promise c) (Error "ERROR_CLEARED")) (head :: rest)
      ++ [Reject (entry_promise head) (Error "ERROR_DISCONNECTED")]
    /\ train_symbol (fst (next st)) = []
    /\ state_symbol (fst (next st)) = IDLE
    /\ written (fst (next st)) = written st
    /\ snd (next st) = Normal.
Proof.
  intros st head rest Hs Ht Ho Hl.
  destruct (clear_effect st) as (C1 & C2 & C3 & C4 & C5 & _).
  destruct (C5 Hl) as [C6 _].
  unfold next. rewrite Hs, Ht, Ho. simpl negb. cbv iota.
  destruct (clear st) as [s c]. simpl in *. subst c. simpl.
  rewrite C3, Ht, <- app_assoc. auto.
Qed.

Lemma next_port_closed_witness :
  let st := fst (on_close (fst (serial_data (two_queued false) [11; 1]))) in
  state_symbol st = IDLE
  /\ train_symbol st = [mkTrainEntry [2] 1 false []]
  /\ serial_isOpen st = false
  /\ handle_calls (fst (next st))
     = handle_calls st
       ++ [Reject 1 (Error "ERROR_CLEARED"); Reject 1 (Error "ERROR_DISCONNECTED")].
Proof.
  cbv zeta.
  split; [reflexivity|]. split; [reflexivity|]. split; [reflexivity|].
  exact (proj1 (next_port_closed
                  (fst (on_close (fst (serial_data (two_queued false) [11; 1]))))
                  (mkTrainEntry [2] 1 false []) [] eq_refl eq_refl eq_refl eq_refl)).
Defined.

Lemma step_as_string : forall st ev, step st (as_string ev) = step st ev.
Proof. intros st [[s|n] p| | | | | | | | |]; reflexivity. Qed.

Lemma run_as_string : forall evs st, run st (map as_string evs) = run st evs.
Proof.
  induction evs as [|ev evs IH]; intros st; [reflexivity|].
  simpl map. simpl run. rewrite step_as_string.
  destruct (step st ev); [apply IH|reflexivity].
Qed.

(** X12: two commands submitted without [prepend] on an idle engine with an
    open port: only the first is written at once; the second is written
    when the first response arrives; the first response byte resolves the
    first promise and the second the second, after which the engine is IDLE
    with an empty queue. *)
Theorem commands_served_in_order :
  forall (st : RyderSerial) (d1 d2 : SendData) (b1 b2 : Z),
    state_symbol st = IDLE ->
    train_symbol st = [] ->
    serial_isOpen st = true ->
    b1 = RESPONSE_OK \/ b1 = RESPONSE_SEND_INPUT \/ b1 = RESPONSE_REJECTED ->
    b2 = RESPONSE_OK \/ b2 = RESPONSE_SEND_INPUT \/ b2 = RESPONSE_REJECTED ->
    exists st2 st4,
      run st [Send d1 false; Send d2 false] = Some st2
      /\ written st2 = written st ++ [queued_data d1]
      /\ run st2 [Data [b1]; Data [b2]] = Some st4
      /\ written st4 = written st ++ [queued_data d1; queued_data d2]
      /\ handle_calls st4
         = handle_calls st
           ++ [Resolve (promise_seq st) (VNumber b1);
               Resolve (S (promise_seq st)) (VNumber b2)]
      /\ state_symbol st4 = IDLE
      /\ train_symbol st4 = [].
Proof.
  intros st d1 d2 b1 b2 Hs Ht Ho Hb1 Hb2.
  rewrite <- (run_as_string [Send d1 false; Send d2 false]). simpl map.
  generalize (queued_data d1) as s1. generalize (queued_data d2) as s2.
  intros s2 s1.
  destruct st as [rol cl ser tr s lk wd ts tq pq hc em wr].
  simpl in Hs, Ht. subst s tr.
  destruct ser as [[[|]]|]; try discriminate Ho.
  destruct Hb1 as [-> | [-> | ->]]; destruct Hb2 as [-> | [-> | ->]];
    destruct wd as [h|];
    (eexists; eexists;
     split; [reflexivity|]; split; [reflexivity|];
     split; [reflexivity|]; cbn;
     rewrite <- ?app_assoc; repeat split).
Qed.

Lemma commands_served_in_order_witness :
  state_symbol (connected false) = IDLE
  /\ exists st2 st4,
       run (connected false) [Send (DNumber 30) false; Send (DString [2; 7]) false]
       = Some st2
       /\ written st2 = [[30]]
       /\ run st2 [Data [1]; Data [3]] = Some st4
       /\ written st4 = [[30]; [2; 7]]
       /\ handle_calls st4 = [Resolve 0 (VNumber 1); Resolve 1 (VNumber 3)].
Proof.
  split; [reflexivity|].
  destruct (commands_served_in_order (connected false) (DNumber 30)
              (DString [2; 7]) 1 3 eq_refl eq_refl eq_refl
              (or_introl eq_refl) (or_intror (or_intror eq_refl)))
    as (st2 & st4 & H1 & H2 & H3 & H4 & H5 & _).
  exists st2, st4. repeat split; assumption.
Defined.

(** X13: [send(data, true)] while a command is in flight puts the new entry
    in front of it without writing anything; the next OK, SEND_INPUT or
    REJECTED byte then resolves the new promise, and the command that was in
    flight is written to the port a second time. *)
Theorem prepend_preempts_head :
  forall (st : RyderSerial) (A : TrainEntry) (rest : list TrainEntry)
         (d : SendData) (b : Z),
    state_symbol st = SENDING ->
    train_symbol st = A :: rest ->
    serial_isOpen st = true ->
    b = RESPONSE_OK \/ b = RESPONSE_SEND_INPUT \/ b = RESPONSE_REJECTED ->
    exists st2,
      run st [Send d true; Data [b]] = Some st2
      /\ snd (send st d true) = Promise_new (promise_seq st)
      /\ written (fst (send st d true)) = written st
      /\ handle_calls st2
         = handle_calls st ++ [Resolve (promise_seq st) (VNumber b)]
      /\ train_symbol st2 = A :: rest
      /\ state_symbol st2 = SENDING
      /\ written st2 = written st ++ [entry_data A].
Proof.
  intros st A rest d b Hs Ht Ho Hb.
  rewrite <- (run_as_string [Send d true; Data [b]]). simpl map.
  assert (E : send st d true = send st (DString (queued_data d)) true)
    by (destruct d; reflexivity).
  rewrite E. generalize (queued_data d) as s1. intros s1.
  destruct st as [rol cl ser tr s lk wd ts tq pq hc em wr].
  simpl in Hs, Ht. subst s tr.
  destruct ser as [[[|]]|]; try discriminate Ho.
  destruct Hb as [-> | [-> | ->]]; destruct wd as [h|];
    (eexists; split; [reflexivity|]; cbn; repeat split).
Qed.

Lemma prepend_preempts_head_witness :
  state_symbol (one_in_flight false) = SENDING
  /\ exists st2,
       run (one_in_flight false) [Send (DNumber 100) true; Data [1]] = Some st2
       /\ handle_calls st2 = [Resolve 1 (VNumber 1)]
       /\ written st2 = [[30]; [30]].
Proof.
  split; [reflexivity|].
  destruct (prepend_preempts_head (one_in_flight false)
              (mkTrainEntry [30] 0 false []) [] (DNumber 100) 1
              eq_refl eq_refl eq_refl (or_introl eq_refl))
    as (st2 & H1 & _ & _ & H4 & _ & _ & H7).
  exists st2. repeat split; assumption.
Defined.

Lemma reading_loop_escaped_then :
  forall (p : nat) (B extra : list Z) (st : RyderSerial) (head : TrainEntry)
         (rest : list TrainEntry),
    Forall is_byte B ->
    train_symbol st = head :: rest ->
    isEscapedByte head = false ->
    reading_loop p st (spec_escape B ++ RESPONSE_OUTPUT_END :: extra)
    = next (set_state IDLE (set_train rest
        (invoke (Resolve p (VString (output_buffer head ++ B))) st))).
Proof.
  intros p B extra. induction B as [|b B IH]; intros st head rest HB Ht He.
  - simpl. rewrite Ht, He. simpl. rewrite app_nil_r.
    destruct st; simpl in *; subst; reflexivity.
  - inversion HB as [|b' B' Hb HB']; subst.
    assert (Hmod : fromCharCode b = [b]).
    { unfold fromCharCode. rewrite Z.mod_small; [reflexivity|].
      unfold is_byte in Hb. lia. }
    unfold spec_escape. simpl flat_map. fold (spec_escape B).
    destruct (spec_is_control b) eqn:Hc.
    + simpl app. simpl reading_loop. rewrite Ht, He. simpl.
      rewrite Hmod.
      erewrite IH; [|exact HB'|reflexivity|reflexivity].
      simpl. rewrite <- app_assoc. simpl.
      destruct st; simpl in *; subst; reflexivity.
    + simpl app.
      assert ((b =? RESPONSE_ESC_SEQUENCE) = false
              /\ (b =? RESPONSE_OUTPUT_END) = false) as [H6 H5].
      { unfold spec_is_control, RESPONSE_ESC_SEQUENCE, RESPONSE_OUTPUT_END in *.
        lia. }
      simpl reading_loop. rewrite Ht, He. simpl. rewrite H6, H5, Hmod.
      erewrite IH; [|exact HB'|reflexivity|reflexivity].
      simpl. rewrite <- app_assoc. simpl.
      destruct st; simpl in *; subst; reflexivity.
Qed.

(** X14: bytes that follow the OUTPUT_END of an output record in the same
    buffer are not decoded: the buffer has the same effect as the record
    alone. *)
Theorem bytes_after_output_end_dropped :
  forall (st : RyderSerial) (head : TrainEntry) (rest : list TrainEntry)
         (B extra : list Z),
    Forall is_byte B ->
    state_symbol st = SENDING ->
    train_symbol st = head :: rest ->
    isEscapedByte head = false ->
    serial_data st (spec_frame B ++ extra) = serial_data st (spec_frame B).
Proof.
  intros st head rest B extra HB Hs Ht He. unfold spec_frame.
  simpl app. rewrite <- app_assoc. simpl app.
  rewrite !(serial_data_output st head rest _ Hs Ht).
  assert (Ht' : train_symbol (setTimeout (set_state READING (clearTimeout st)))
                = head :: rest).
  { simpl. now rewrite clearTimeout_train. }
  rewrite (reading_loop_escaped_then _ B extra _ head rest HB Ht' He).
  rewrite (reading_loop_escaped _ B _ head rest HB Ht' He).
  reflexivity.
Qed.

Lemma bytes_after_output_end_dropped_witness :
  Forall is_byte [170]
  /\ state_symbol (two_queued false) = SENDING
  /\ serial_data (two_queued false) (spec_frame [170] ++ [1])
     = serial_data (two_queued false) (spec_frame [170]).
Proof.
  assert (HB : Forall is_byte [170]) by (repeat constructor; unfold is_byte; lia).
  split; [exact HB|]. split; [reflexivity|].
  exact (bytes_after_output_end_dropped (two_queued false)
           (mkTrainEntry [30] 0 false []) [mkTrainEntry [2] 1 false []]
           [170] [1] HB eq_refl eq_refl eq_refl).
Defined.

Lemma strict_equal_true :
  forall x s, strict_equal x s = true <-> x = Some s.
Proof.
  intros [y|] s; simpl; split; intros H; try discriminate.
  - apply String.eqb_eq in H. now subst.
  - injection H as ->. apply String.eqb_refl.
Qed.

(** X15: [enumerate_devices] returns exactly the listed ports whose vendor
    id is "10c4" and product id is "ea60" (a port without one of the ids is
    left out); filtering again changes nothing and the result is no longer
    than the list. *)
Theorem enumerate_devices_spec :
  forall (devices : list PortInfo) (d : PortInfo),
    (In d (enumerate_devices devices)
     <-> In d devices
         /\ vendorId d = Some "10c4"%string /\ productId d = Some "ea60"%string)
    /\ enumerate_devices (enumerate_devices devices) = enumerate_devices devices
    /\ (List.length (enumerate_devices devices) <= List.length devices)%nat.
Proof.
  intros devices d. unfold enumerate_devices. split; [|split].
  - rewrite filter_In, andb_true_iff, !strict_equal_true. tauto.
  - induction devices as [|x l IH]; simpl; [reflexivity|].
    destruct (strict_equal (vendorId x) "10c4" && strict_equal (productId x) "ea60")
      eqn:E; simpl; [rewrite E, IH; reflexivity|exact IH].
  - apply filter_length_le.
Qed.

(** X16: on an instance with no lock outstanding, [lock()] returns a
    resolved promise and makes [locked()] true; the following [unlock()]
    takes the handle off the queue, restoring the instance, and raises a
    TypeError when it calls the handle (the detached [Promise.resolve]). *)
Theorem lock_then_unlock :
  forall st : RyderSerial,
    lock_symbol st = [] ->
    snd (lock st) = Promise_resolve
    /\ locked (fst (lock st)) = true
    /\ unlock (fst (lock st)) = (st, Throw TypeError)
    /\ locked (fst (unlock (fst (lock st)))) = false.
Proof.
  intros st Hl.
  destruct st as [rol cl ser tr s lk wd ts tq pq hc em wr].
  simpl in Hl. subst lk. repeat split.
Qed.

Lemma lock_then_unlock_witness :
  lock_symbol (connected false) = []
  /\ unlock (fst (lock (connected false))) = (connected false, Throw TypeError).
Proof.
  split; [reflexivity|].
  destruct (lock_then_unlock (connected false) eq_refl) as (_ & _ & H & _).
  exact H.
Defined.

(** X17: when an output record completes the only queued command, the
    engine is IDLE with an empty queue but the watchdog armed for the read is
    still armed; when it fires, no handle is invoked and the engine stays
    IDLE. *)
Theorem output_leaves_watchdog_armed :
  forall (st : RyderSerial) (head : TrainEntry) (B : list Z),
    Forall is_byte B ->
    watchdog_ok st ->
    state_symbol st = SENDING ->
    train_symbol st = [head] ->
    isEscapedByte head = false ->
    let st1 := fst (serial_data st (spec_frame B)) in
    state_symbol st1 = IDLE
    /\ train_symbol st1 = []
    /\ timeouts st1 = [timeout_seq st]
    /\ exists st2,
         step st1 (Timeout (timeout_seq st)) = Some st2
         /\ handle_calls st2 = handle_calls st1
         /\ state_symbol st2 = IDLE
         /\ armed st2 = 0%nat.
Proof.
  intros st head B HB Hok Hs Ht He st1.
  assert (Ht' : train_symbol (setTimeout (set_state READING (clearTimeout st)))
                = [head]).
  { simpl. now rewrite clearTimeout_train. }
  assert (E : st1 = set_state IDLE (set_train []
                (invoke (Resolve (entry_promise head)
                           (VString (output_buffer head ++ B)))
                   (setTimeout (set_state READING (clearTimeout st)))))).
  { subst st1. unfold spec_frame.
    rewrite (serial_data_output st head [] _ Hs Ht).
    rewrite (reading_loop_escaped _ B _ head [] HB Ht' He).
    now rewrite next_nil. }
  assert (H1 : timeouts st1 = [timeout_seq st]).
  { rewrite E. simpl. rewrite (clearTimeout_disarms st Hok).
    unfold clearTimeout. now destruct (watchdog_symbol st). }
  assert (H2 : state_symbol st1 = IDLE) by now rewrite E.
  assert (H3 : train_symbol st1 = []) by now rewrite E.
  clearbody st1.
  split; [exact H2|]. split; [exact H3|]. split; [exact H1|].
  simpl. rewrite H1. simpl. rewrite Nat.eqb_refl. simpl.
  eexists. split; [reflexivity|].
  unfold serial_watchdog. simpl. rewrite H3. simpl.
  unfold armed. simpl. rewrite H1. simpl. rewrite Nat.eqb_refl. auto.
Qed.

Lemma output_leaves_watchdog_armed_witness :
  watchdog_ok (one_in_flight false)
  /\ state_symbol (fst (serial_data (one_in_flight false) (spec_frame [170]))) = IDLE
  /\ timeouts (fst (serial_data (one_in_flight false) (spec_frame [170])))
     = [timeout_seq (one_in_flight false)].
Proof.
  assert (Hok : watchdog_ok (one_in_flight false)).
  { right. exists 0%nat. split; reflexivity. }
  assert (HB : Forall is_byte [170]) by (repeat constructor; unfold is_byte; lia).
  split; [exact Hok|].
  pose proof (output_leaves_watchdog_armed (one_in_flight false)
                (mkTrainEntry [30] 0 false []) [170] HB Hok eq_refl eq_refl eq_refl)
    as H.
  cbv zeta in H. destruct H as (H1 & _ & H3 & _).
  split; [exact H1|exact H3].
Defined.

Lemma moved_refl : forall st, moved st st.
Proof. intros st. repeat split. apply Permutation_refl. Qed.

Lemma moved_trans : forall a b c, moved a b -> moved b c -> moved a c.
Proof.
  intros a b c (P1 & Q1 & S1 & R1) (P2 & Q2 & S2 & R2).
  repeat split; try congruence. eapply Permutation_trans; eassumption.
Qed.

Lemma moved_once : forall st st', once st -> moved st st' -> once st'.
Proof.
  intros st st' (N & B & S & R) (P & Q1 & S1 & R1).
  repeat split; try congruence.
  - eapply Permutation_NoDup; eassumption.
  - intros p Hp. rewrite Q1. apply B.
    eapply Permutation_in; [apply Permutation_sym; exact P|exact Hp].
Qed.

(** States that agree on the queue's promises, the invocations, the promise
    counter, the port and the LOCKED policy. *)
Lemma moved_same :
  forall st st',
    map entry_promise (train_symbol st') = map entry_promise (train_symbol st) ->
    handle_calls st' = handle_calls st ->
    promise_seq st' = promise_seq st ->
    serial_isOpen st' = serial_isOpen st ->
    reject_on_locked st' = reject_on_locked st ->
    moved st st'.
Proof.
  intros st st' Ht Hc Hp Hs Hr. repeat split; try assumption.
  unfold promises. rewrite Ht, Hc. apply Permutation_refl.
Qed.

Lemma clearTimeout_same : forall st, moved st (clearTimeout st).
Proof.
  intros st. unfold clearTimeout.
  destruct (watchdog_symbol st); apply moved_same; reflexivity.
Qed.

Lemma perm_move :
  forall (p : nat) (l c : list nat), Permutation (p :: l ++ c) (l ++ c ++ [p]).
Proof.
  intros p l c. rewrite app_assoc. apply Permutation_cons_append.
Qed.

(** Completing the head: it leaves the queue and one of its handles is
    invoked. *)
Lemma complete_head_moved :
  forall st head rest c,
    train_symbol st = head :: rest ->
    call_promise c = entry_promise head ->
    moved st (invoke c (shift st)) /\ moved st (shift (invoke c st)).
Proof.
  intros st head rest c Ht Hc.
  split; repeat split; unfold promises; simpl; rewrite Ht; simpl;
    rewrite map_app; simpl; rewrite Hc; apply perm_move.
Qed.

Lemma clear_moved : forall st, moved st (fst (clear st)).
Proof.
  intros st. unfold clear. rewrite reject_each_eq.
  assert (P : Permutation (promises st)
                (map call_promise
                   (handle_calls st
                    ++ map (fun c => Reject (entry_promise c) (Error "ERROR_CLEARED"))
                         (train_symbol st)))).
  { unfold promises. rewrite map_app, map_map. simpl.
    apply Permutation_app_comm. }
  destruct (release_each _); simpl; repeat split; unfold promises; simpl;
    rewrite ?clearTimeout_calls, ?clearTimeout_train; try exact P;
    unfold clearTimeout, serial_isOpen; destruct (watchdog_symbol st); reflexivity.
Qed.

Lemma next_moved :
  forall st, serial_isOpen st = true -> moved st (fst (next st)) /\ snd (next st) = Normal.
Proof.
  intros st Ho. unfold next.
  destruct (state_symbol st); try (split; [apply moved_refl|reflexivity]).
  destruct (train_symbol st) eqn:Ht; try (split; [apply moved_refl|reflexivity]).
  rewrite Ho. simpl. split; [|reflexivity].
  unfold clearTimeout. simpl.
  destruct (watchdog_symbol st); apply moved_same; simpl; auto; now rewrite Ht.
Qed.

Lemma moved_next :
  forall st st',
    serial_isOpen st = true -> moved st st' -> moved st (fst (next st')).
Proof.
  intros st st' Ho M.
  eapply moved_trans; [exact M|].
  apply next_moved. destruct M as (_ & _ & S & _). congruence.
Qed.

Lemma reading_loop_moved :
  forall (bytes : list Z) (st : RyderSerial) (head : TrainEntry),
    serial_isOpen st = true ->
    train_symbol st <> [] ->
    hd_error (map entry_promise (train_symbol st)) = Some (entry_promise head) ->
    moved st (fst (reading_loop (entry_promise head) st bytes)).
Proof.
  induction bytes as [|b bytes IH]; intros st head Ho Hn Hh.
  - apply moved_refl.
  - simpl. destruct (train_symbol st) as [|h rest] eqn:Ht; [contradiction|].
    simpl in Hh. injection Hh as Hh.
    assert (Hset : forall c, entry_promise c = entry_promise h ->
              moved st (fst (reading_loop (entry_promise head) (set_head c st) bytes))).
    { intros c Hc.
      eapply moved_trans; [|apply IH].
      - apply moved_same; simpl; try reflexivity. rewrite Ht. simpl. now rewrite Hc.
      - exact Ho.
      - simpl. discriminate.
      - simpl. rewrite Hc. now rewrite Hh. }
    destruct (negb (isEscapedByte h)); [|apply Hset; reflexivity].
    destruct (b =? RESPONSE_ESC_SEQUENCE); [apply Hset; reflexivity|].
    destruct (b =? RESPONSE_OUTPUT_END); [|apply Hset; reflexivity].
    apply moved_next; [exact Ho|].
    eapply moved_trans;
      [apply (proj2 (complete_head_moved st h rest
                 (Resolve (entry_promise head) (VString (output_buffer h))) Ht
                 (eq_sym Hh)))|].
    apply moved_same; reflexivity.
Qed.

Lemma reading_moved :
  forall (st : RyderSerial) (head : TrainEntry) (rest : list TrainEntry)
         (offset : nat) (data : list Z),
    serial_isOpen st = true ->
    train_symbol st = head :: rest ->
    moved st (fst (reading (entry_promise head) st offset data)).
Proof.
  intros st head rest offset data Ho Ht. unfold reading.
  destruct (state_symbol st); try apply moved_refl.
  eapply moved_trans; [|apply reading_loop_moved].
  - apply moved_same; reflexivity.
  - exact Ho.
  - simpl. rewrite Ht. discriminate.
  - simpl. now rewrite Ht.
Qed.

Lemma serial_data_body_moved :
  forall (self : RyderSerial -> RyderSerial * Completion),
    (forall st, serial_isOpen st = true -> reject_on_locked st = false ->
                moved st (fst (self st))) ->
    forall (st : RyderSerial) (data : list Z),
      serial_isOpen st = true -> reject_on_locked st = false ->
      moved st (fst (serial_data_body self st data)).
Proof.
  intros self Hself st data Ho Hr. unfold serial_data_body.
  destruct (state_symbol st) eqn:Es; [apply moved_refl| |].
  - (* SENDING *)
    rewrite clearTimeout_train.
    destruct (train_symbol st) as [|head rest] eqn:Et; [apply clearTimeout_same|].
    rewrite clearTimeout_state, Es, clearTimeout_rol, Hr, andb_false_r.
    set (st1 := if first_is data RESPONSE_LOCKED then _ else _).
    assert (M1 : moved st st1).
    { eapply moved_trans; [apply clearTimeout_same|].
      subst st1. destruct (first_is data RESPONSE_LOCKED);
        [apply moved_same; reflexivity|apply moved_refl]. }
    assert (Ht1 : train_symbol st1 = head :: rest).
    { subst st1. destruct (first_is data RESPONSE_LOCKED); simpl;
        rewrite clearTimeout_train; exact Et. }
    assert (Ho1 : serial_isOpen st1 = true)
      by (destruct M1 as (_ & _ & S & _); congruence).
    assert (Hr1 : reject_on_locked st1 = false)
      by (destruct M1 as (_ & _ & _ & R); congruence).
    clearbody st1.
    eapply moved_trans; [exact M1|].
    destruct (first_is data RESPONSE_OK || first_is data RESPONSE_SEND_INPUT
              || first_is data RESPONSE_REJECTED).
    { pose proof (proj1 (complete_head_moved st1 head rest
                    (Resolve (entry_promise head) (VNumber (hd 0 data))) Ht1 eq_refl))
        as M2.
      assert (Ho2 : serial_isOpen (invoke (Resolve (entry_promise head)
                       (VNumber (hd 0 data))) (shift st1)) = true)
        by (destruct M2 as (_ & _ & S & _); congruence).
      assert (Hr2 : reject_on_locked (invoke (Resolve (entry_promise head)
                       (VNumber (hd 0 data))) (shift st1)) = false)
        by (destruct M2 as (_ & _ & _ & R); congruence).
      destruct (more_in_buffer data).
      - eapply moved_trans; [exact M2|]. apply Hself; assumption.
      - apply moved_next; [exact Ho1|].
        eapply moved_trans; [exact M2|]. apply moved_same; reflexivity. }
    destruct (first_is data RESPONSE_OUTPUT).
    { eapply moved_trans; [|apply (reading_moved _ head rest)].
      - apply moved_same; reflexivity.
      - exact Ho1.
      - exact Ht1. }
    destruct (first_is data RESPONSE_WAIT_USER_CONFIRM).
    { destruct (more_in_buffer data).
      - eapply moved_trans; [|apply Hself]; [apply moved_same; reflexivity| |];
          assumption.
      - apply moved_same; reflexivity. }
    pose proof (proj2 (complete_head_moved st1 head rest
                  (Reject (entry_promise head) (Error (error_message data))) Ht1 eq_refl))
      as M2.
    set (st2 := set_state IDLE _).
    assert (M3 : moved st1 st2).
    { eapply moved_trans; [exact M2|]. apply moved_same; reflexivity. }
    assert (Ho2 : serial_isOpen st2 = true)
      by (destruct M3 as (_ & _ & S & _); congruence).
    assert (Hr2 : reject_on_locked st2 = false)
      by (destruct M3 as (_ & _ & _ & R); congruence).
    clearbody st2.
    destruct (more_in_buffer data).
    + eapply moved_trans; [exact M3|]. apply Hself; assumption.
    + apply moved_next; assumption.
  - (* READING *)
    rewrite clearTimeout_train.
    destruct (train_symbol st) as [|head rest] eqn:Et; [apply clearTimeout_same|].
    rewrite clearTimeout_state, Es.
    eapply moved_trans; [apply clearTimeout_same|].
    apply (reading_moved _ head rest).
    + pose proof (clearTimeout_same st) as (_ & _ & S & _). congruence.
    + now rewrite clearTimeout_train.
Qed.

Lemma serial_data_moved :
  forall (data : list Z) (st : RyderSerial),
    serial_isOpen st = true -> reject_on_locked st = false ->
    moved st (fst (serial_data st data)).
Proof.
  induction data as [|b rest IH]; intros st Ho Hr; simpl.
  - apply serial_data_body_moved; try assumption; intros; apply moved_refl.
  - apply serial_data_body_moved; try assumption; intros; now apply IH.
Qed.

Lemma send_once : forall st d p, once st -> once (fst (send st d p)).
Proof.
  intros st d p HK. pose proof HK as (N & B & Ho & Hr).
  unfold send. rewrite Ho. simpl negb. cbv iota.
  set (c := mkTrainEntry _ _ _ _).
  set (st1 := if p then _ else _).
  assert (K1 : once st1).
  { assert (P : Permutation (promise_seq st :: promises st) (promises st1)).
    { subst st1. unfold promises. destruct p; simpl.
      - apply Permutation_refl.
      - rewrite map_app. simpl. rewrite <- app_assoc. simpl.
        apply Permutation_middle. }
    assert (Hq : promise_seq st1 = S (promise_seq st))
      by (subst st1; destruct p; reflexivity).
    repeat split.
    - eapply Permutation_NoDup; [exact P|]. constructor; [|exact N].
      intros Hin. apply B in Hin. lia.
    - intros q Hq'. rewrite Hq.
      apply (Permutation_in _ (Permutation_sym P)) in Hq'.
      destruct Hq' as [<- | Hq']; [lia|]. apply B in Hq'. lia.
    - subst st1. destruct p; exact Ho.
    - subst st1. destruct p; exact Hr. }
  destruct K1 as (N1 & B1 & Ho1 & Hr1).
  destruct (next_moved st1 Ho1) as [M Hn].
  destruct (next st1) as [st2 cpl]. simpl in *. subst cpl.
  apply (moved_once st1); [repeat split; assumption|exact M].
Qed.

Lemma step_once :
  forall st ev st',
    engine_event ev = true -> once st -> step st ev = Some st' -> once st'.
Proof.
  intros st ev st' He HK Hstep. pose proof HK as (N & B & Ho & Hr).
  destruct ev; try discriminate He; simpl in Hstep.
  - injection Hstep as <-. now apply send_once.
  - injection Hstep as <-. apply (moved_once st); [exact HK|].
    now apply serial_data_moved.
  - destruct (existsb (Nat.eqb h) (timeouts st)); [|discriminate].
    injection Hstep as <-. apply (moved_once st); [exact HK|].
    unfold serial_watchdog.
    change (train_symbol (expire h st)) with (train_symbol st).
    destruct (train_symbol st) as [|head rest] eqn:Ht.
    + apply moved_same; reflexivity.
    + apply moved_next; [exact Ho|].
      eapply moved_trans; [apply (moved_same st (expire h st)); reflexivity|].
      eapply moved_trans;
        [apply (proj1 (complete_head_moved (expire h st) head rest
                  (Reject (entry_promise head) (Error "ERROR_WATCHDOG")) Ht eq_refl))|].
      apply moved_same; reflexivity.
  - injection Hstep as <-. apply (moved_once st); [exact HK|]. apply clear_moved.
  - injection Hstep as <-. apply (moved_once st); [exact HK|].
    apply moved_same; reflexivity.
  - injection Hstep as <-. apply (moved_once st); [exact HK|].
    unfold unlock. destruct (lock_symbol st); [apply moved_refl|].
    apply moved_same; reflexivity.
Qed.

Lemma run_once :
  forall evs st st',
    forallb engine_event evs = true -> once st -> run st evs = Some st' -> once st'.
Proof.
  induction evs as [|ev evs IH]; intros st st' He HK Hrun; simpl in *.
  - injection Hrun as <-. exact HK.
  - apply andb_true_iff in He as [He1 He2].
    destruct (step st ev) as [st1|] eqn:Hstep; [|discriminate].
    apply (IH st1); try assumption. exact (step_once st ev st1 He1 HK Hstep).
Qed.

Lemma calls_at_most_one :
  forall (p : nat) (l : list HandleCall),
    NoDup (map call_promise l) ->
    (List.length (filter (fun c => match c with
                                   | Resolve q _ => Nat.eqb q p
                                   | Reject _ _ => false
                                   end) l)
     + List.length (filter (fun c => match c with
                                     | Reject q _ => Nat.eqb q p
                                     | Resolve _ _ => false
                                     end) l) <= 1)%nat.
Proof.
  intros p l. induction l as [|c l IH]; intros N; simpl; [lia|].
  inversion N as [|x xs Hx N']; subst. specialize (IH N').
  assert (Hz : call_promise c = p ->
               (List.length (filter (fun c => match c with
                                   | Resolve q _ => Nat.eqb q p
                                   | Reject _ _ => false
                                   end) l)
                + List.length (filter (fun c => match c with
                                     | Reject q _ => Nat.eqb q p
                                     | Resolve _ _ => false
                                     end) l) = 0)%nat).
  { intros Hc. clear IH N N'. induction l as [|c' l IHl]; simpl; [reflexivity|].
    assert (Hn : call_promise c' <> p).
    { intros E. apply Hx. simpl. left. congruence. }
    assert (Hx' : ~ In (call_promise c) (map call_promise l)).
    { intros Hin. apply Hx. simpl. now right. }
    specialize (IHl Hx').
    destruct c' as [q v|q e]; simpl in *;
      destruct (Nat.eqb_spec q p); try contradiction; exact IHl. }
  destruct c as [q v|q e]; simpl in *;
    destruct (Nat.eqb_spec q p) as [Eq|Nq]; simpl; try exact IH;
    specialize (Hz Eq); lia.
Qed.

(** X18: on a connected instance with [reject_on_locked] off, after any
    sequence of submissions, inbound buffers, watchdog expiries, [clear()],
    [lock()] and [unlock()] calls (the port staying open), no command has
    more than one handle invocation: its resolver and its rejecter are
    invoked at most once in total. *)
Theorem completion_at_most_once :
  forall (evs : list Event) (st : RyderSerial) (p : nat),
    forallb engine_event evs = true ->
    run (connected false) evs = Some st ->
    (resolver_calls p st + rejecter_calls p st <= 1)%nat.
Proof.
  intros evs st p He Hrun.
  assert (K0 : once (connected false)).
  { repeat split; try constructor. intros q []. }
  destruct (run_once evs _ _ He K0 Hrun) as (N & _).
  unfold resolver_calls, rejecter_calls. apply calls_at_most_one.
  unfold promises in N. apply NoDup_app_remove_l in N. exact N.
Qed.

Lemma completion_at_most_once_witness :
  forallb engine_event
    [Send (DNumber 30) false; Send (DNumber 2) true; Data [4; 170];
     Timeout 1; Data [11; 1]; Clear] = true
  /\ exists st,
       run (connected false)
           [Send (DNumber 30) false; Send (DNumber 2) true; Data [4; 170];
            Timeout 1; Data [11; 1]; Clear] = Some st
       /\ (resolver_calls 0 st + rejecter_calls 0 st <= 1)%nat.
Proof.
  split; [reflexivity|].
  eexists. split; [vm_compute; reflexivity|].
  apply (completion_at_most_once
           [Send (DNumber 30) false; Send (DNumber 2) true; Data [4; 170];
            Timeout 1; Data [11; 1]; Clear]);
    [reflexivity|vm_compute; reflexivity].
Defined.

Lemma observable_fields :
  forall st st', observable st = observable st' ->
    train_symbol st = train_symbol st' /\ state_symbol st = state_symbol st'
    /\ serial st = serial st'.
Proof.
  intros st st' H. unfold observable in H. injection H. intros. auto.
Qed.

Lemma observable_clear :
  forall st st', observable st = observable st' ->
    observable (fst (clear st)) = observable (fst (clear st'))
    /\ snd (clear st) = snd (clear st').
Proof.
  intros st st' H.
  destruct st as [rol cl ser tr s lk wd ts tq pq hc em wr].
  destruct st' as [rol' cl' ser' tr' s' lk' wd' ts' tq' pq' hc' em' wr'].
  unfold observable in H. simpl in H. injection H as -> -> -> -> -> -> -> -> -> ->.
  unfold clear. rewrite !reject_each_eq.
  destruct wd, wd'; simpl; destruct (release_each lk'); split; reflexivity.
Qed.

Lemma observable_next :
  forall st st', observable st = observable st' ->
    observable (fst (next st)) = observable (fst (next st'))
    /\ snd (next st) = snd (next st').
Proof.
  intros st st' H.
  pose proof (observable_clear st st' H) as [Hc1 Hc2].
  destruct (observable_fields st st' H) as (Ht & Hs & Hser).
  assert (Ho : serial_isOpen st = serial_isOpen st').
  { unfold serial_isOpen. now rewrite Hser. }
  unfold next. rewrite <- Hs, <- Ht, <- Ho.
  destruct (state_symbol st); try (split; [exact H|reflexivity]).
  destruct (train_symbol st) as [|head rest]; try (split; [exact H|reflexivity]).
  destruct (negb (serial_isOpen st)).
  - destruct (clear st) as [s1 c1], (clear st') as [s2 c2]. simpl in *. subst c2.
    destruct c1; simpl; split; try reflexivity; try exact Hc1.
    unfold observable in *. simpl. injection Hc1. intros. congruence.
  - split; [|reflexivity].
    destruct st as [rol cl ser tr s lk wd ts tq pq hc em wr].
    destruct st' as [rol' cl' ser' tr' s' lk' wd' ts' tq' pq' hc' em' wr'].
    unfold observable in H. simpl in H. injection H as -> -> -> -> -> -> -> -> -> ->.
    destruct wd, wd'; reflexivity.
Qed.

Lemma observable_set_head :
  forall st st' c, observable st = observable st' ->
    observable (set_head c st) = observable (set_head c st').
Proof.
  intros st st' c H. unfold observable in *. simpl.
  injection H. intros. congruence.
Qed.

Lemma observable_reading_loop :
  forall (bytes : list Z) (p : nat) (st st' : RyderSerial),
    observable st = observable st' ->
    observable (fst (reading_loop p st bytes))
    = observable (fst (reading_loop p st' bytes))
    /\ snd (reading_loop p st bytes) = snd (reading_loop p st' bytes).
Proof.
  induction bytes as [|b bytes IH]; intros p st st' H.
  - split; [exact H|reflexivity].
  - simpl.
    destruct (observable_fields st st' H) as (Ht & _).
    rewrite <- Ht.
    destruct (train_symbol st) as [|head rest]; [split; [exact H|reflexivity]|].
    destruct (negb (isEscapedByte head));
      [|apply IH; now apply observable_set_head].
    destruct (b =? RESPONSE_ESC_SEQUENCE);
      [apply IH; now apply observable_set_head|].
    destruct (b =? RESPONSE_OUTPUT_END);
      [|apply IH; now apply observable_set_head].
    apply observable_next. unfold observable in *. simpl.
    injection H. intros. congruence.
Qed.

Lemma next_not_reading :
  forall st, state_symbol st <> READING -> state_symbol (fst (next st)) <> READING.
Proof.
  intros st Hs. unfold next.
  destruct (state_symbol st) eqn:Es; try (simpl; congruence).
  destruct (train_symbol st); try (simpl; congruence).
  destruct (negb (serial_isOpen st)).
  - destruct (clear_effect st) as (_ & C2 & _).
    destruct (clear st) as [s1 [|e]]; simpl in *; congruence.
  - simpl. rewrite clearTimeout_state. simpl. discriminate.
Qed.

(** The READING loop over two pieces, when the first does not end the
    output. *)
Lemma reading_loop_app :
  forall (d1 d2 : list Z) (p : nat) (st : RyderSerial),
    state_symbol st = READING ->
    train_symbol st <> [] ->
    state_symbol (fst (reading_loop p st d1)) = READING ->
    reading_loop p st (d1 ++ d2) = reading_loop p (fst (reading_loop p st d1)) d2.
Proof.
  induction d1 as [|b d1 IH]; intros d2 p st Hs Hn Hr; [reflexivity|].
  simpl in *.
  destruct (train_symbol st) as [|head rest] eqn:Ht; [contradiction|].
  assert (Hset : forall c,
            state_symbol (fst (reading_loop p (set_head c st) d1)) = READING ->
            reading_loop p (set_head c st) (d1 ++ d2)
            = reading_loop p (fst (reading_loop p (set_head c st) d1)) d2).
  { intros c Hc. apply IH; simpl; try assumption. discriminate. }
  destruct (negb (isEscapedByte head)); [|apply Hset; exact Hr].
  destruct (b =? RESPONSE_ESC_SEQUENCE); [apply Hset; exact Hr|].
  destruct (b =? RESPONSE_OUTPUT_END); [|apply Hset; exact Hr].
  exfalso. revert Hr. apply next_not_reading. simpl. discriminate.
Qed.

(** A piece of an escaped byte string that stops before OUTPUT_END leaves
    the engine READING, with the same entry at the head. *)
Lemma reading_loop_prefix :
  forall (B d1 d2 : list Z) (p : nat) (st : RyderSerial) (head : TrainEntry)
         (rest : list TrainEntry),
    spec_escape B ++ [RESPONSE_OUTPUT_END] = d1 ++ d2 ->
    d2 <> [] ->
    state_symbol st = READING ->
    train_symbol st = head :: rest ->
    isEscapedByte head = false ->
    state_symbol (fst (reading_loop p st d1)) = READING
    /\ exists head1,
         train_symbol (fst (reading_loop p st d1)) = head1 :: rest
         /\ entry_promise head1 = entry_promise head.
Proof.
  induction B as [|b B IH]; intros d1 d2 p st head rest E Hd Hs Ht He.
  - simpl in E. destruct d1 as [|x d1].
    + simpl. eauto.
    + exfalso. injection E as _ E. destruct d1; [|discriminate].
      simpl in E. apply Hd. now rewrite <- E.
  - unfold spec_escape in E. simpl flat_map in E. fold (spec_escape B) in E.
    destruct d1 as [|x d1]; [simpl; eauto|].
    assert (Hstep : forall c d1',
              entry_promise c = entry_promise head -> isEscapedByte c = false ->
              spec_escape B ++ [RESPONSE_OUTPUT_END] = d1' ++ d2 ->
              state_symbol (fst (reading_loop p (set_head c st) d1')) = READING
              /\ exists head1,
                   train_symbol (fst (reading_loop p (set_head c st) d1')) = head1 :: rest
                   /\ entry_promise head1 = entry_promise head).
    { intros c d1' Hc Hce E'.
      destruct (IH d1' d2 p (set_head c st) c rest E' Hd) as [R1 [h1 [R2 R3]]];
        simpl; try assumption; try (now rewrite Ht).
      split; [exact R1|]. exists h1. split; [exact R2|congruence]. }
    destruct (spec_is_control b) eqn:Hc.
    + simpl in E. injection E as <- E.
      simpl reading_loop. rewrite Ht, He. simpl.
      destruct d1 as [|y d1].
      * simpl. rewrite Ht. simpl. split; [exact Hs|]. eexists. split; reflexivity.
      * simpl in E. injection E as <- E.
        simpl reading_loop. simpl.
        match goal with
        | |- context [reading_loop p ?s d1] =>
            replace s with (set_head
              (mkTrainEntry (entry_data head) (entry_promise head) false
                 (output_buffer head ++ fromCharCode b)) st)
        end.
        -- apply Hstep; auto.
        -- destruct st; simpl in *; subst; reflexivity.
    + simpl in E. injection E as <- E.
      assert ((b =? RESPONSE_ESC_SEQUENCE) = false
              /\ (b =? RESPONSE_OUTPUT_END) = false) as [H6 H5].
      { unfold spec_is_control, RESPONSE_ESC_SEQUENCE, RESPONSE_OUTPUT_END in *.
        lia. }
      simpl reading_loop. rewrite Ht, He. simpl. rewrite H6, H5.
      apply Hstep; auto.
Qed.

(** Inbound data while READING with a head entry. *)
Lemma serial_data_reading :
  forall (st : RyderSerial) (head : TrainEntry) (rest : list TrainEntry)
         (data : list Z),
    state_symbol st = READING ->
    train_symbol st = head :: rest ->
    serial_data st data
    = reading_loop (entry_promise head) (setTimeout (clearTimeout st)) data.
Proof.
  intros st head rest data Hs Ht.
  destruct data as [|b data]; simpl serial_data; unfold serial_data_body;
    rewrite Hs, clearTimeout_train, Ht, clearTimeout_state, Hs;
    unfold reading; rewrite clearTimeout_state, Hs; reflexivity.
Qed.

Lemma observable_rearmed :
  forall st, observable (setTimeout (clearTimeout st)) = observable st.
Proof.
  intros st. destruct st as [rol cl ser tr s lk wd ts tq pq hc em wr].
  destruct wd; reflexivity.
Qed.

(** X19: an output record delivered in two non-empty buffers, cut at any
    point (also between an escape byte and the byte it escapes), has the
    same outcome as the record delivered whole: the same queue, state,
    handle invocations, events and writes; only the watchdog handle
    differs. *)
Theorem frame_split_in_two :
  forall (st : RyderSerial) (head : TrainEntry) (rest : list TrainEntry)
         (B d1 d2 : list Z),
    state_symbol st = SENDING ->
    train_symbol st = head :: rest ->
    isEscapedByte head = false ->
    spec_frame B = d1 ++ d2 ->
    d1 <> [] -> d2 <> [] ->
    observable (fst (serial_data (fst (serial_data st d1)) d2))
    = observable (fst (serial_data st (spec_frame B)))
    /\ snd (serial_data (fst (serial_data st d1)) d2)
       = snd (serial_data st (spec_frame B)).
Proof.
  intros st head rest B d1 d2 Hs Ht He E Hd1 Hd2.
  destruct d1 as [|x d1]; [contradiction|].
  unfold spec_frame in E. simpl in E. injection E as <- E.
  unfold spec_frame. rewrite E.
  rewrite !(serial_data_output st head rest _ Hs Ht).
  set (s0 := setTimeout (set_state READING (clearTimeout st))).
  assert (Hs0 : state_symbol s0 = READING) by reflexivity.
  assert (Ht0 : train_symbol s0 = head :: rest).
  { subst s0. simpl. now rewrite clearTimeout_train. }
  destruct (reading_loop_prefix B d1 d2 (entry_promise head) s0 head rest
              E Hd2 Hs0 Ht0 He) as [R1 [head1 [R2 R3]]].
  rewrite (reading_loop_app d1 d2 (entry_promise head) s0 Hs0); 
    [|rewrite Ht0; discriminate|exact R1].
  rewrite (serial_data_reading _ head1 rest d2 R1 R2), R3.
  apply observable_reading_loop. apply observable_rearmed.
Qed.

Lemma frame_split_in_two_witness :
  state_symbol (one_in_flight false) = SENDING
  /\ spec_frame [5; 65] = [4; 6] ++ [5; 65; 5]
  /\ observable (fst (serial_data (fst (serial_data (one_in_flight false) [4; 6]))
                        [5; 65; 5]))
     = observable (fst (serial_data (one_in_flight false) (spec_frame [5; 65]))).
Proof.
  split; [reflexivity|]. split; [reflexivity|].
  apply (frame_split_in_two (one_in_flight false)
           (mkTrainEntry [30] 0 false []) [] [5; 65] [4; 6] [5; 65; 5]
           eq_refl eq_refl eq_refl eq_refl); discriminate.
Defined.

(** X20: a one-byte buffer OK, SEND_INPUT or REJECTED received while SENDING
    on an open port resolves the head with that byte and removes it; the
    next queued command, if any, is then written and gets a fresh watchdog,
    otherwise the engine is IDLE with no watchdog. *)
Theorem ok_byte_advances_queue :
  forall (st : RyderSerial) (head : TrainEntry) (rest : list TrainEntry) (b : Z),
    watchdog_ok st ->
    state_symbol st = SENDING ->
    train_symbol st = head :: rest ->
    serial_isOpen st = true ->
    b = RESPONSE_OK \/ b = RESPONSE_SEND_INPUT \/ b = RESPONSE_REJECTED ->
    let st' := fst (serial_data st [b]) in
    handle_calls st'
    = handle_calls st ++ [Resolve (entry_promise head) (VNumber b)]
    /\ train_symbol st' = rest
    /\ match rest with
       | [] => state_symbol st' = IDLE /\ armed st' = 0%nat
               /\ written st' = written st
       | c :: _ => state_symbol st' = SENDING /\ armed st' = 1%nat
                   /\ written st' = written st ++ [entry_data c]
       end.
Proof.
  intros st head rest b Hok Hs Ht Ho Hb st'.
  assert (E : serial_data st [b]
              = next (set_state IDLE
                        (invoke (Resolve (entry_promise head) (VNumber b))
                                (shift (clearTimeout st))))).
  { simpl. unfold serial_data_body.
    rewrite Hs, clearTimeout_train, Ht, clearTimeout_state, Hs.
    destruct Hb as [-> | [-> | ->]]; reflexivity. }
  subst st'. rewrite E.
  set (s := set_state IDLE _).
  assert (Hs1 : state_symbol s = IDLE) by reflexivity.
  assert (Ht1 : train_symbol s = rest).
  { subst s. simpl. now rewrite clearTimeout_train, Ht. }
  assert (Hc1 : handle_calls s
                = handle_calls st ++ [Resolve (entry_promise head) (VNumber b)]).
  { subst s. simpl. now rewrite clearTimeout_calls. }
  assert (Hw1 : written s = written st).
  { subst s. simpl. apply clearTimeout_written. }
  assert (Hd1 : timeouts s = []).
  { subst s. simpl. now apply clearTimeout_disarms. }
  assert (Ho1 : serial_isOpen s = true).
  { subst s. unfold serial_isOpen. simpl.
    fold (serial_isOpen (clearTimeout st)). now rewrite clearTimeout_serial_isOpen. }
  clearbody s.
  destruct rest as [|c rest'].
  - rewrite (next_nil s Ht1). simpl. unfold armed. rewrite Hd1. auto.
  - destruct (next_sends_fields s c rest' (or_introl Hd1) Hs1 Ht1 Ho1)
      as (A1 & A2 & A3 & A4 & A5 & _).
    rewrite A4, A2, A3, Hw1. auto.
Qed.

Lemma ok_byte_advances_queue_witness :
  watchdog_ok (two_queued false)
  /\ handle_calls (fst (serial_data (two_queued false) [2]))
     = handle_calls (two_queued false) ++ [Resolve 0 (VNumber 2)]
  /\ state_symbol (fst (serial_data (two_queued false) [2])) = SENDING
  /\ written (fst (serial_data (two_queued false) [2]))
     = written (two_queued false) ++ [[2]].
Proof.
  assert (Hok : watchdog_ok (two_queued false)).
  { right. exists 0%nat. split; reflexivity. }
  split; [exact Hok|].
  pose proof (ok_byte_advances_queue (two_queued false)
                (mkTrainEntry [30] 0 false []) [mkTrainEntry [2] 1 false []] 2
                Hok eq_refl eq_refl eq_refl (or_intror (or_introl eq_refl))) as H.
  cbv zeta in H. destruct H as (H1 & _ & H3 & _ & H5).
  split; [exact H1|]. split; [exact H3|exact H5].
Defined.

(** X21: a WAIT_USER_CONFIRM buffer followed later by an output record: the
    first emits [wait_user_confirm] and invokes no handle, the engine stays
    in SENDING, and the record then resolves the head with its bytes. *)
Theorem user_confirm_then_output :
  forall (st : RyderSerial) (head : TrainEntry) (rest : list TrainEntry)
         (B : list Z),
    Forall is_byte B ->
    state_symbol st = SENDING ->
    train_symbol st = head :: rest ->
    isEscapedByte head = false ->
    output_buffer head = [] ->
    let st1 := fst (serial_data st [RESPONSE_WAIT_USER_CONFIRM]) in
    emitted st1 = emitted st ++ ["wait_user_confirm"%string]
    /\ handle_calls st1 = handle_calls st
    /\ state_symbol st1 = SENDING
    /\ exists more,
         handle_calls (fst (serial_data st1 (spec_frame B)))
         = handle_calls st ++ Resolve (entry_promise head) (VString B) :: more.
Proof.
  intros st head rest B HB Hs Ht He Ho st1.
  assert (E : st1 = emit "wait_user_confirm" (clearTimeout st)).
  { subst st1. simpl. unfold serial_data_body.
    rewrite Hs, clearTimeout_train, Ht, clearTimeout_state, Hs. reflexivity. }
  assert (H1 : emitted st1 = emitted st ++ ["wait_user_confirm"%string]).
  { rewrite E. simpl. now rewrite clearTimeout_emitted. }
  assert (H2 : handle_calls st1 = handle_calls st).
  { rewrite E. simpl. apply clearTimeout_calls. }
  assert (H3 : state_symbol st1 = SENDING).
  { rewrite E. simpl. now rewrite clearTimeout_state. }
  assert (H4 : train_symbol st1 = head :: rest).
  { rewrite E. simpl. now rewrite clearTimeout_train. }
  clearbody st1.
  split; [exact H1|]. split; [exact H2|]. split; [exact H3|].
  destruct (serial_data_frame st1 head rest B H3 H4 He Ho HB) as [more [Hm _]].
  exists more. now rewrite Hm, H2.
Qed.

Lemma user_confirm_then_output_witness :
  Forall is_byte [222; 173]
  /\ state_symbol (one_in_flight false) = SENDING
  /\ exists more,
       handle_calls (fst (serial_data (fst (serial_data (one_in_flight false) [10]))
                            (spec_frame [222; 173])))
       = handle_calls (one_in_flight false) ++ Resolve 0 (VString [222; 173]) :: more.
Proof.
  assert (HB : Forall is_byte [222; 173])
    by (repeat constructor; unfold is_byte; lia).
  split; [exact HB|]. split; [reflexivity|].
  pose proof (user_confirm_then_output (one_in_flight false)
                (mkTrainEntry [30] 0 false []) [] [222; 173] HB
                eq_refl eq_refl eq_refl eq_refl) as H.
  cbv zeta in H. destruct H as (_ & _ & _ & H4). exact H4.
Defined.

(** X22: [close()], [open()] and the new port's [open] event, on an instance
    that is not closing and has no lock outstanding: every queued entry is
    rejected with ERROR_CLEARED, the queue is empty, the engine IDLE, the
    port open and [closing] false again, and a following [send] is written
    to the port at once. *)
Theorem close_then_open_reconnects :
  forall (st : RyderSerial),
    closing st = false ->
    lock_symbol st = [] ->
    exists st3,
      run st [Close; Open; PortOpen] = Some st3
      /\ handle_calls st3
         = handle_calls st
           ++ map (fun c => Reject (entry_promise c) (Error "ERROR_CLEARED"))
                  (train_symbol st)
      /\ train_symbol st3 = []
      /\ state_symbol st3 = IDLE
      /\ closing st3 = false
      /\ serial_isOpen st3 = true
      /\ written st3 = written st
      /\ forall s : JsString,
           state_symbol (fst (send st3 (DString s) false)) = SENDING
           /\ written (fst (send st3 (DString s) false)) = written st ++ [s].
Proof.
  intros st Hc Hl.
  destruct (clear_effect (set_closing true st)) as (C1 & C2 & C3 & C4 & C5 & _).
  destruct (C5 Hl) as [C6 C7].
  assert (E1 : close st
               = (set_serial None (fst (clear (set_closing true st))), Normal)).
  { unfold close. rewrite Hc.
    destruct (clear (set_closing true st)) as [s1 c]. simpl in C6. now subst c. }
  set (s1 := fst (clear (set_closing true st))) in *.
  assert (E2 : open (set_serial None s1)
               = (set_serial (Some (mkSerialPort false))
                    (set_closing false (set_serial None s1)), Normal))
    by reflexivity.
  set (s3 := emit "open" (set_serial (Some (mkSerialPort true))
                (set_serial (Some (mkSerialPort false))
                   (set_closing false (set_serial None s1))))).
  assert (Ht3 : train_symbol s3 = []) by exact C1.
  assert (Hs3 : state_symbol s3 = IDLE) by exact C2.
  exists s3. split.
  { cbn [run step]. rewrite E1. cbn [fst]. rewrite E2. cbn [fst].
    cbn [serial set_serial]. unfold on_open.
    fold s3. now rewrite (next_nil s3 Ht3). }
  split; [exact C3|]. split; [exact Ht3|]. split; [exact Hs3|].
  split; [reflexivity|]. split; [reflexivity|]. split; [exact C4|].
  intros s.
  assert (Ho3 : serial_isOpen s3 = true) by reflexivity.
  unfold send. rewrite Ho3. cbn [negb].
  set (c := mkTrainEntry _ _ _ _).
  set (s4 := set_train _ _).
  assert (Ht4 : train_symbol s4 = [c]) by (change (train_symbol s4) with (train_symbol s3 ++ [c]); now rewrite Ht3).
  assert (Hs4 : state_symbol s4 = IDLE) by exact C2.
  assert (Ho4 : serial_isOpen s4 = true) by reflexivity.
  rewrite (next_sends s4 c [] Hs4 Ht4 Ho4). cbn [fst].
  split.
  - cbn [state_symbol setTimeout]. now rewrite clearTimeout_state.
  - cbn [written setTimeout]. rewrite clearTimeout_written.
    cbn [written write set_state]. 
    change (written s4) with (written s1). now rewrite C4.
Qed.

Lemma close_then_open_reconnects_witness :
  closing (two_queued false) = false
  /\ lock_symbol (two_queued false) = []
  /\ exists st3,
       run (two_queued false) [Close; Open; PortOpen] = Some st3
       /\ handle_calls st3
          = [Reject 0 (Error "ERROR_CLEARED"); Reject 1 (Error "ERROR_CLEARED")]
       /\ closing st3 = false.
Proof.
  split; [reflexivity|]. split; [reflexivity|].
  destruct (close_then_open_reconnects (two_queued false) eq_refl eq_refl)
    as (st3 & H1 & H2 & _ & _ & H5 & _).
  exists st3. repeat split; assumption.
Defined.
